(** * DAOForge: the proposal lifecycle of [src/index.ts]

    A shallow embedding of the canister's six exported functions and of the
    two collections they share, followed by the properties of the proposal
    state machine.

    Modelling choices, all read off the source:
    - [proposalStorage] (a [StableBTreeMap<string, Proposal>]) is a finite map
      from strings to records; [insert] overwrites, [get] is a lookup.  The
      byte bounds given to its constructor belong to the storage engine and
      are not modelled.
    - [members] (a [Set<string>]) is a finite set of strings.
    - the two counters have the TypeScript type [number], a double.  The
      functions only ever write [0] or a counter [+ 1], so a counter holds
      a natural number; [+ 1] on it is [num_succ], exact below [2^53] and
      rounded as doubles round from there on.  The sum that
      [finalizeProposal] compares with [3] is exact wherever the comparison
      can go either way.
    - [nat64] timestamps are natural numbers; no arithmetic is done on them.
    - [uuidv4()] and [ic.time()] are answers of the platform: every function
      that asks for them takes the answer as an argument. *)

From stdpp Require Import gmap strings list fin_maps pretty.

Module DAO.

Local Open Scope N_scope.
#[local] Set Warnings "-clear-no-such-hyp".

(** ** Data model *)

(** [status: 'Pending' | 'Accepted' | 'Rejected'] *)
Inductive Status : Set :=
  | Pending
  | Accepted
  | Rejected.

#[global] Instance Status_eq_dec : EqDecision Status.
Proof. solve_decision. Defined.

(** The text of a status inside a template literal. *)
Definition status_text (st : Status) : string :=
  match st with
  | Pending => "Pending"
  | Accepted => "Accepted"
  | Rejected => "Rejected"
  end.

(** [class Proposal] *)
Record Proposal : Type := mkProposal {
  id : string;
  title : string;
  description : string;
  proposer : string;
  votesFor : N;
  votesAgainst : N;
  status : Status;
  createdAt : N;
  updatedAt : option N;
  executionResult : option string
}.

(** The two module-level collections. *)
Record State : Type := mkState {
  proposalStorage : gmap string Proposal;
  members : gset string
}.

(** Both collections start empty. *)
Definition init : State :=
  {| proposalStorage := ∅; members := ∅ |}.

(** ** Result texts

    Every exported update returns a template literal; they are spelled
    out here once, with the interpolated values as arguments. *)

Definition msg_create_not_member : string :=
  "Error: Only DAO members can create proposals".

Definition msg_created (proposalId who : string) : string :=
  "Proposal with id=" +:+ proposalId +:+ " has been created by " +:+ who.

Definition msg_vote_not_member : string :=
  "Error: Only DAO members can vote on proposals".

Definition msg_not_found (proposalId : string) : string :=
  "Proposal with id=" +:+ proposalId +:+ " not found".

Definition msg_voting_closed (proposalId : string) : string :=
  "Proposal with id=" +:+ proposalId +:+ " is no longer open for voting".

Definition msg_vote_registered (voteFor : bool) (proposalId : string) : string :=
  "Vote registered: " +:+ (if voteFor then "For" else "Against")
    +:+ " for proposal id=" +:+ proposalId.

Definition msg_already_finalized (proposalId : string) : string :=
  "Proposal with id=" +:+ proposalId +:+ " has already been finalized".

Definition msg_quorum_not_met (proposalId : string) (q : N) : string :=
  "Proposal with id=" +:+ proposalId +:+ " did not reach the quorum of "
    +:+ pretty q +:+ " votes".

Definition msg_finalized (proposalId : string) (st : Status) : string :=
  "Proposal with id=" +:+ proposalId +:+ " has been " +:+ status_text st.

Definition msg_member_added (newMember : string) : string :=
  "Member with address " +:+ newMember +:+ " has been added to the DAO".

(** ** The exported functions *)

(** [x + 1] for a JavaScript [number] [x] that holds a natural number.
    Doubles carry 53 significant bits: below [2^53] the sum is exact;
    from [2^53] up to [2^54] the neighbours are two apart and [x + 1] falls
    halfway, so it is rounded to the neighbour with an even significand;
    from [2^54] on it is rounded back to [x]. *)
Definition num_succ (x : N) : N :=
  if x <? 2 ^ 53 then x + 1
  else if x <? 2 ^ 54 then (if N.even (x / 2) then x else x + 2)
  else x.

(** [createProposal]; [proposalId] is the answer of [uuidv4()] and [now]
    the answer of [getCurrentTime()], both asked for only after the
    membership test has passed. *)
Definition createProposal (proposalId : string) (now : N)
    (proposer title description : string) (s : State) : string * State :=
  if decide (proposer ∈ members s) then
    let newProposal :=
      {| id := proposalId;
         title := title;
         description := description;
         proposer := proposer;
         votesFor := 0;
         votesAgainst := 0;
         status := Pending;
         createdAt := now;
         updatedAt := None;
         executionResult := None |} in
    (msg_created proposalId proposer,
     {| proposalStorage := <[proposalId := newProposal]> (proposalStorage s);
        members := members s |})
  else (msg_create_not_member, s).

(** [voteOnProposal]; [now] is the answer of [getCurrentTime()]. *)
Definition voteOnProposal (now : N) (proposalId voter : string)
    (voteFor : bool) (s : State) : string * State :=
  if decide (voter ∈ members s) then
    match proposalStorage s !! proposalId with
    | None => (msg_not_found proposalId, s)
    | Some proposal =>
        if decide (status proposal = Pending) then
          let updatedVotesFor :=
            if voteFor then num_succ (votesFor proposal)
            else votesFor proposal in
          let updatedVotesAgainst :=
            if negb voteFor then num_succ (votesAgainst proposal)
            else votesAgainst proposal in
          let updatedProposal :=
            {| id := id proposal;
               title := title proposal;
               description := description proposal;
               proposer := proposer proposal;
               votesFor := updatedVotesFor;
               votesAgainst := updatedVotesAgainst;
               status := status proposal;
               createdAt := createdAt proposal;
               updatedAt := Some now;
               executionResult := executionResult proposal |} in
          (msg_vote_registered voteFor proposalId,
           {| proposalStorage :=
                <[proposalId := updatedProposal]> (proposalStorage s);
              members := members s |})
        else (msg_voting_closed proposalId, s)
    end
  else (msg_vote_not_member, s).

(** [executeProposal], the stub that stands for the execution. *)
Definition executeProposal (proposalId : string) : string :=
  "Proposal id=" +:+ proposalId +:+ " executed successfully".

(** The two constants local to [finalizeProposal]. *)
Definition quorum : N := 3.
Definition threshold : N := 2.

(** [finalizeProposal]; [now] is the answer of [getCurrentTime()]. *)
Definition finalizeProposal (now : N) (proposalId : string) (s : State)
    : string * State :=
  match proposalStorage s !! proposalId with
  | None => (msg_not_found proposalId, s)
  | Some proposal =>
      if decide (status proposal = Pending) then
        let totalVotes := votesFor proposal + votesAgainst proposal in
        if totalVotes <? quorum then (msg_quorum_not_met proposalId quorum, s)
        else
          let status' :=
            if threshold <=? votesFor proposal then Accepted else Rejected in
          let executionResult' :=
            if decide (status' = Accepted)
            then Some (executeProposal proposalId) else None in
          let finalizedProposal :=
            {| id := id proposal;
               title := title proposal;
               description := description proposal;
               proposer := proposer proposal;
               votesFor := votesFor proposal;
               votesAgainst := votesAgainst proposal;
               status := status';
               createdAt := createdAt proposal;
               updatedAt := Some now;
               executionResult := executionResult' |} in
          (msg_finalized proposalId status',
           {| proposalStorage :=
                <[proposalId := finalizedProposal]> (proposalStorage s);
              members := members s |})
      else (msg_already_finalized proposalId, s)
  end.

(** [addMember]; the first argument is never read. *)
Definition addMember (admin newMember : string) (s : State) : string * State :=
  (msg_member_added newMember,
   {| proposalStorage := proposalStorage s;
      members := {[newMember]} ∪ members s |}).

(** [getAllProposals]: the stored records.  The B-tree lists them by key;
    the order plays no part below. *)
Definition getAllProposals (s : State) : list Proposal :=
  (map_to_list (proposalStorage s)).*2.

(** [getProposalById] returns [Proposal | string]. *)
Definition getProposalById (proposalId : string) (s : State)
    : Proposal + string :=
  match proposalStorage s !! proposalId with
  | None => inr (msg_not_found proposalId)
  | Some proposal => inl proposal
  end.

(** ** Calls and runs

    The canister serves one call at a time.  A call names the exported
    function with its arguments; the platform's answers to [uuidv4()] and
    [ic.time()] during that call travel with it. *)

Inductive Call : Type :=
  | CreateProposal (proposer title description : string)
  | VoteOnProposal (proposalId voter : string) (voteFor : bool)
  | FinalizeProposal (proposalId : string)
  | AddMember (admin newMember : string)
  | GetAllProposals
  | GetProposalById (proposalId : string).

Record Platform : Type := mkPlatform {
  uuid : string;
  time : N
}.

Inductive Reply : Type :=
  | Text (t : string)
  | Records (l : list Proposal)
  | OneRecord (p : Proposal).

Definition exec (w : Platform) (c : Call) (s : State) : Reply * State :=
  match c with
  | CreateProposal proposer title description =>
      let r := createProposal (uuid w) (time w) proposer title description s in
      (Text r.1, r.2)
  | VoteOnProposal proposalId voter voteFor =>
      let r := voteOnProposal (time w) proposalId voter voteFor s in
      (Text r.1, r.2)
  | FinalizeProposal proposalId =>
      let r := finalizeProposal (time w) proposalId s in
      (Text r.1, r.2)
  | AddMember admin newMember =>
      let r := addMember admin newMember s in
      (Text r.1, r.2)
  | GetAllProposals => (Records (getAllProposals s), s)
  | GetProposalById proposalId =>
      (match getProposalById proposalId s with
       | inl p => OneRecord p
       | inr t => Text t
       end, s)
  end.

Fixpoint run (tr : list (Platform * Call)) (s : State) : State :=
  match tr with
  | [] => s
  | (w, c) :: tr' => run tr' (exec w c s).2
  end.

Definition reachable (s : State) : Prop :=
  ∃ tr, run tr init = s.

(** What [uuidv4()] promises: an identifier that is not in use.  The
    source does not test for it; the promise is needed only where
    [createProposal] really asks for an identifier. *)
Definition uuid_unused (w : Platform) (c : Call) (s : State) : Prop :=
  match c with
  | CreateProposal proposer _ _ =>
      proposer ∈ members s → proposalStorage s !! uuid w = None
  | _ => True
  end.

Fixpoint uuids_unused (tr : list (Platform * Call)) (s : State) : Prop :=
  match tr with
  | [] => True
  | (w, c) :: tr' => uuid_unused w c s ∧ uuids_unused tr' (exec w c s).2
  end.

(** A weaker condition, about one key: no [createProposal] call that
    asks for an identifier is handed [proposalId]. *)
Definition uuid_spares (proposalId : string) (w : Platform) (c : Call)
    (s : State) : Prop :=
  match c with
  | CreateProposal proposer _ _ =>
      proposer ∈ members s → uuid w ≠ proposalId
  | _ => True
  end.

Fixpoint uuids_spare (proposalId : string) (tr : list (Platform * Call))
    (s : State) : Prop :=
  match tr with
  | [] => True
  | (w, c) :: tr' =>
      uuid_spares proposalId w c s ∧ uuids_spare proposalId tr' (exec w c s).2
  end.

(** ** Sequences of votes *)

Record Ballot : Type := mkBallot {
  cast_at : N;
  on_proposal : string;
  by_voter : string;
  in_favour : bool
}.

(** The calls of a list of ballots in order: the texts returned and the
    state reached. *)
Fixpoint cast (bs : list Ballot) (s : State) : list string * State :=
  match bs with
  | [] => ([], s)
  | b :: bs' =>
      let r := voteOnProposal (cast_at b) (on_proposal b) (by_voter b)
                 (in_favour b) s in
      let rs := cast bs' r.2 in
      (r.1 :: rs.1, rs.2)
  end.

(** A ballot is accepted in [s] when its voter is a member and its
    proposal exists and is pending. *)
Definition accepted (s : State) (b : Ballot) : bool :=
  bool_decide (by_voter b ∈ members s) &&
  match proposalStorage s !! on_proposal b with
  | Some p => bool_decide (status p = Pending)
  | None => false
  end.

Definition accepted_on (s : State) (proposalId : string) (b : Ballot) : bool :=
  accepted s b && bool_decide (on_proposal b = proposalId).

(** The ballots of [bs] on [proposalId] that [s] accepts. *)
Definition count_accepted (s : State) (proposalId : string)
    (bs : list Ballot) : nat :=
  length (filter (λ b, accepted_on s proposalId b = true) bs).


(** The link between the two nullable-or-not fields that the data model
    promises for every stored record. *)
Definition result_iff_accepted (p : Proposal) : Prop :=
  executionResult p ≠ None ↔ status p = Accepted.

Definition store_consistent (s : State) : Prop :=
  ∀ k p, proposalStorage s !! k = Some p → result_iff_accepted p.

(** ** What a call writes, and what a store is made of

    The four places of the source that call [proposalStorage.insert], as a
    relation: the call, the key and the record written.  [exec] is
    compared with it below. *)

Inductive written (w : Platform) (s : State)
    : Call → string → Proposal → Prop :=
  | written_create who t d :
      who ∈ members s →
      written w s (CreateProposal who t d) (uuid w)
        (mkProposal (uuid w) t d who 0 0 Pending (time w) None None)
  | written_vote pid voter vf p :
      voter ∈ members s →
      proposalStorage s !! pid = Some p →
      status p = Pending →
      written w s (VoteOnProposal pid voter vf) pid
        (mkProposal (id p) (title p) (description p) (proposer p)
           (if vf then num_succ (votesFor p) else votesFor p)
           (if vf then votesAgainst p else num_succ (votesAgainst p))
           Pending (createdAt p) (Some (time w)) (executionResult p))
  | written_accept pid p :
      proposalStorage s !! pid = Some p →
      status p = Pending →
      quorum ≤ votesFor p + votesAgainst p →
      threshold ≤ votesFor p →
      written w s (FinalizeProposal pid) pid
        (mkProposal (id p) (title p) (description p) (proposer p)
           (votesFor p) (votesAgainst p) Accepted (createdAt p)
           (Some (time w)) (Some (executeProposal pid)))
  | written_reject pid p :
      proposalStorage s !! pid = Some p →
      status p = Pending →
      quorum ≤ votesFor p + votesAgainst p →
      votesFor p < threshold →
      written w s (FinalizeProposal pid) pid
        (mkProposal (id p) (title p) (description p) (proposer p)
           (votesFor p) (votesAgainst p) Rejected (createdAt p)
           (Some (time w)) None).

(** What holds of a record [p] stored at key [k] in a state [s] that the
    calls have built. *)
Record record_ok (s : State) (k : string) (p : Proposal) : Prop := {
  ok_id : id p = k;
  ok_proposer : proposer p ∈ members s;
  ok_updated : updatedAt p = None ↔ votesFor p + votesAgainst p = 0;
  ok_pending : status p = Pending → executionResult p = None;
  ok_accepted :
    status p = Accepted →
    quorum ≤ votesFor p + votesAgainst p ∧ threshold ≤ votesFor p
    ∧ executionResult p = Some (executeProposal k);
  ok_rejected :
    status p = Rejected →
    quorum ≤ votesFor p + votesAgainst p ∧ votesFor p < threshold
    ∧ executionResult p = None
}.

Definition store_ok (s : State) : Prop :=
  ∀ k p, proposalStorage s !! k = Some p → record_ok s k p.

(** The [newMember] arguments of the [addMember] calls of a run. *)
Fixpoint added_members (tr : list (Platform * Call)) : gset string :=
  match tr with
  | [] => ∅
  | (_, AddMember _ newMember) :: tr' => {[newMember]} ∪ added_members tr'
  | _ :: tr' => added_members tr'
  end.

(** The identifiers that [createProposal] inserted during a run from [s]:
    those handed to a call whose proposer was a member at that moment. *)
Fixpoint created_ids (tr : list (Platform * Call)) (s : State) : gset string :=
  match tr with
  | [] => ∅
  | (w, c) :: tr' =>
      match c with
      | CreateProposal who _ _ =>
          if decide (who ∈ members s) then {[uuid w]} else ∅
      | _ => ∅
      end ∪ created_ids tr' (exec w c s).2
  end.

(** A clock that does not run backwards: the times of the calls of a run,
    starting no earlier than [t0], never decrease. *)
Fixpoint clock_from (t0 : N) (tr : list (Platform * Call)) : Prop :=
  match tr with
  | [] => True
  | (w, _) :: tr' => t0 ≤ time w ∧ clock_from (time w) tr'
  end.

(** Every stamp of the store is at most [t0], and no record was updated
    before it was created. *)
Definition stamps_le (t0 : N) (s : State) : Prop :=
  ∀ k p, proposalStorage s !! k = Some p →
    createdAt p ≤ t0
    ∧ ∀ u, updatedAt p = Some u → createdAt p ≤ u ∧ u ≤ t0.

(** What a record keeps, and what can only grow, while it is stored. *)
Definition grows (p p' : Proposal) : Prop :=
  id p' = id p ∧ title p' = title p ∧ description p' = description p
  ∧ proposer p' = proposer p ∧ createdAt p' = createdAt p
  ∧ votesFor p ≤ votesFor p' ∧ votesAgainst p ≤ votesAgainst p'.

(** The ballots of a list in favour, and those against. *)
Definition ballots_for (bs : list Ballot) : list Ballot :=
  filter (λ b, in_favour b = true) bs.

Definition ballots_against (bs : list Ballot) : list Ballot :=
  filter (λ b, in_favour b = false) bs.

(** ** A scenario

    Three members, one proposal, three votes and the finalization; the
    identifier is one that [uuidv4()] can give. *)

Definition pid1 : string := "110ec58a-a0f2-4ac4-8393-c866d813b8d1".

Definition scenario_setup : list (Platform * Call) :=
  [ (mkPlatform "" 0, AddMember "root" "alice");
    (mkPlatform "" 0, AddMember "root" "bob");
    (mkPlatform "" 0, AddMember "root" "carol");
    (mkPlatform pid1 10, CreateProposal "alice" "T" "D") ].

Definition scenario_votes : list (Platform * Call) :=
  [ (mkPlatform "" 11, VoteOnProposal pid1 "alice" true);
    (mkPlatform "" 12, VoteOnProposal pid1 "bob" true);
    (mkPlatform "" 13, VoteOnProposal pid1 "carol" false) ].

Definition scenario_finalize : list (Platform * Call) :=
  [ (mkPlatform "" 14, FinalizeProposal pid1) ].

Definition s_created : State := run scenario_setup init.
Definition s_voted : State := run scenario_votes s_created.
Definition s_final : State := run scenario_finalize s_voted.

Definition p_created : Proposal :=
  mkProposal pid1 "T" "D" "alice" 0 0 Pending 10 None None.
Definition p_voted : Proposal :=
  mkProposal pid1 "T" "D" "alice" 2 1 Pending 10 (Some 13) None.
Definition p_final : Proposal :=
  mkProposal pid1 "T" "D" "alice" 2 1 Accepted 10 (Some 14)
    (Some "Proposal id=110ec58a-a0f2-4ac4-8393-c866d813b8d1 executed successfully").

(** A second identifier, a second outcome and a list of ballots. *)
Definition pid2 : string := "7c9e6679-7425-40de-944b-e07fc1f90ae7".

Definition p_second : Proposal :=
  mkProposal pid2 "T2" "D2" "bob" 0 0 Pending 20 None None.

Definition scenario_rejected : list (Platform * Call) :=
  [ (mkPlatform pid2 20, CreateProposal "bob" "T2" "D2");
    (mkPlatform "" 21, VoteOnProposal pid2 "alice" true);
    (mkPlatform "" 22, VoteOnProposal pid2 "bob" false);
    (mkPlatform "" 23, VoteOnProposal pid2 "carol" false);
    (mkPlatform "" 24, FinalizeProposal pid2) ].

Definition p_rejected : Proposal :=
  mkProposal pid2 "T2" "D2" "bob" 1 2 Rejected 20 (Some 24) None.

Definition scenario_later : list (Platform * Call) :=
  [ (mkPlatform "" 30, VoteOnProposal pid1 "alice" false);
    (mkPlatform "" 31, FinalizeProposal pid1);
    (mkPlatform pid2 32, CreateProposal "bob" "T2" "D2");
    (mkPlatform "" 33, AddMember "x" "dave");
    (mkPlatform "" 34, GetAllProposals);
    (mkPlatform "" 35, GetProposalById pid1) ].

Definition s_rejected : State := run scenario_rejected s_created.

(** A record whose counter in favour has reached [2^53], and a call that
    hands out the identifier of the finalized record again. *)
Definition p_saturated : Proposal :=
  mkProposal pid2 "T2" "D2" "bob" (2 ^ 53) 0 Pending 20 (Some 21) None.

Definition s_saturated : State :=
  {| proposalStorage := {[ pid2 := p_saturated ]};
     members := {[ "alice" ]} |}.

Definition scenario_collision : list (Platform * Call) :=
  [ (mkPlatform pid1 40, CreateProposal "alice" "T3" "D3") ].

Definition p_collided : Proposal :=
  mkProposal pid1 "T3" "D3" "alice" 0 0 Pending 40 None None.

Definition scenario_ballots : list Ballot :=
  [ mkBallot 11 pid1 "alice" true;
    mkBallot 12 pid1 "mallory" true;
    mkBallot 13 pid2 "bob" true;
    mkBallot 14 pid1 "alice" false ].

Example scenario_created : proposalStorage s_created !! pid1 = Some p_created.
Proof. vm_compute. reflexivity. Qed.

Example scenario_voted : proposalStorage s_voted !! pid1 = Some p_voted.
Proof. vm_compute. reflexivity. Qed.

Example scenario_final : proposalStorage s_final !! pid1 = Some p_final.
Proof. vm_compute. reflexivity. Qed.

Example scenario_quorum_text :
  (finalizeProposal 11 pid1 s_created).1
  = "Proposal with id=110ec58a-a0f2-4ac4-8393-c866d813b8d1 did not reach the quorum of 3 votes".
Proof. vm_compute. reflexivity. Qed.

(** ** Basic facts *)

Lemma quorum_text (proposalId : string) :
  msg_quorum_not_met proposalId quorum
  = "Proposal with id=" +:+ proposalId +:+ " did not reach the quorum of 3 votes".
Proof. reflexivity. Qed.

(** [num_succ] adds one below [2^53], never goes down and never gives 0. *)
Lemma num_succ_safe x : x < 2 ^ 53 → num_succ x = x + 1.
Proof. intros Hx. unfold num_succ. by apply N.ltb_lt in Hx as ->. Qed.

Lemma num_succ_ge x : x ≤ num_succ x.
Proof.
  unfold num_succ. destruct (x <? 2 ^ 53); [lia|].
  destruct (x <? 2 ^ 54); [|lia]. destruct (N.even (x / 2)); lia.
Qed.

Lemma num_succ_pos x : num_succ x ≠ 0.
Proof.
  unfold num_succ. destruct (x <? 2 ^ 53) eqn:Hx; [lia|].
  apply N.ltb_ge in Hx.
  assert (0 < 2 ^ 53) by (vm_compute; reflexivity).
  destruct (x <? 2 ^ 54); [|lia]. destruct (N.even (x / 2)); lia.
Qed.

Lemma num_succ_iter_safe n x :
  x + N.of_nat n ≤ 2 ^ 53 → Nat.iter n num_succ x = x + N.of_nat n.
Proof.
  induction n as [|n IH]; intros Hx; [cbn; lia|].
  rewrite Nat.iter_succ, IH by lia. rewrite num_succ_safe by lia. lia.
Qed.

Ltac unfold_ops :=
  unfold createProposal, voteOnProposal, finalizeProposal, addMember,
    getProposalById, getAllProposals in *.

(** None of the updates but [addMember] touches the member set. *)
Lemma createProposal_members uid now who t d s :
  members (createProposal uid now who t d s).2 = members s.
Proof. unfold_ops. by case_decide. Qed.

Lemma voteOnProposal_members now pid voter vf s :
  members (voteOnProposal now pid voter vf s).2 = members s.
Proof.
  unfold_ops. case_decide; [|done].
  destruct (proposalStorage s !! pid); [|done]. by case_decide.
Qed.

Lemma finalizeProposal_members now pid s :
  members (finalizeProposal now pid s).2 = members s.
Proof.
  unfold_ops. destruct (proposalStorage s !! pid); [|done].
  case_decide; [|done]. by case_match.
Qed.

(** Members are only ever added. *)
Lemma exec_members_mono w c s :
  members s ⊆ members (exec w c s).2.
Proof.
  destruct c; cbn [exec snd];
    rewrite ?createProposal_members, ?voteOnProposal_members,
      ?finalizeProposal_members; [done..| |done|done].
  unfold addMember. cbn. set_solver.
Qed.

(** ** finalizeProposal *)

(** C1. A pending proposal with at least three votes is finalized:
    Accepted with the text of [executeProposal] when [votesFor] is at least
    two, Rejected with no execution result otherwise; either way [updatedAt]
    becomes the current time and the record is written back by one insert
    at its key, every other field as it was. *)
Theorem finalizeProposal_decides now pid s p :
  proposalStorage s !! pid = Some p →
  status p = Pending →
  3 ≤ votesFor p + votesAgainst p →
  (2 ≤ votesFor p →
     finalizeProposal now pid s =
       (msg_finalized pid Accepted,
        {| proposalStorage :=
             <[pid := {| id := id p; title := title p;
                         description := description p;
                         proposer := proposer p;
                         votesFor := votesFor p;
                         votesAgainst := votesAgainst p;
                         status := Accepted;
                         createdAt := createdAt p;
                         updatedAt := Some now;
                         executionResult := Some (executeProposal pid) |}]>
               (proposalStorage s);
           members := members s |}))
  ∧ (votesFor p < 2 →
     finalizeProposal now pid s =
       (msg_finalized pid Rejected,
        {| proposalStorage :=
             <[pid := {| id := id p; title := title p;
                         description := description p;
                         proposer := proposer p;
                         votesFor := votesFor p;
                         votesAgainst := votesAgainst p;
                         status := Rejected;
                         createdAt := createdAt p;
                         updatedAt := Some now;
                         executionResult := None |}]>
               (proposalStorage s);
           members := members s |})).
Proof.
  intros Hget Hpending Hquorum. unfold finalizeProposal. rewrite Hget.
  rewrite decide_True by done.
  assert ((votesFor p + votesAgainst p <? quorum) = false) as ->
    by (apply N.ltb_ge; unfold quorum; lia).
  split; intros Hfor.
  - assert ((threshold <=? votesFor p) = true) as ->
      by (apply N.leb_le; unfold threshold; lia).
    by rewrite decide_True.
  - assert ((threshold <=? votesFor p) = false) as ->
      by (apply N.leb_gt; unfold threshold; lia).
    by rewrite decide_False.
Qed.

(** The threshold looks at the count of votes in favour alone: two in
    favour against a hundred still pass. *)
Example finalizeProposal_no_majority :
  let p := mkProposal "k" "T" "D" "alice" 2 100 Pending 1 None None in
  status <$> proposalStorage
    (finalizeProposal 5 "k" {| proposalStorage := {[ "k" := p ]};
                               members := ∅ |}).2 !! "k"
  = Some Accepted.
Proof. vm_compute. reflexivity. Qed.

Example finalizeProposal_rejects :
  proposalStorage (run scenario_rejected s_created) !! pid2 = Some p_rejected.
Proof. vm_compute. reflexivity. Qed.

Lemma finalizeProposal_decides_witness :
  proposalStorage s_voted !! pid1 = Some p_voted
  ∧ status p_voted = Pending
  ∧ 3 ≤ votesFor p_voted + votesAgainst p_voted
  ∧ 2 ≤ votesFor p_voted
  ∧ (finalizeProposal 14 pid1 s_voted).1
    = "Proposal with id=110ec58a-a0f2-4ac4-8393-c866d813b8d1 has been Accepted"
  ∧ proposalStorage (finalizeProposal 14 pid1 s_voted).2 !! pid1 = Some p_final.
Proof.
  assert (proposalStorage s_voted !! pid1 = Some p_voted) as H1
    by (vm_compute; reflexivity).
  assert (status p_voted = Pending) as H2 by reflexivity.
  assert (3 ≤ votesFor p_voted + votesAgainst p_voted) as H3 by (cbn; lia).
  assert (2 ≤ votesFor p_voted) as H4 by (cbn; lia).
  destruct (finalizeProposal_decides 14 pid1 s_voted p_voted H1 H2 H3)
    as [Haccepted _].
  rewrite (Haccepted H4). by split_and!.
Defined.

(** C2. Below the quorum of three votes, finalizing a pending proposal
    returns the quorum text and the state is the one before the call; the
    record is still there, still pending, for a later attempt. *)
Theorem finalizeProposal_below_quorum now pid s p :
  proposalStorage s !! pid = Some p →
  status p = Pending →
  votesFor p + votesAgainst p < 3 →
  finalizeProposal now pid s = (msg_quorum_not_met pid 3, s)
  ∧ proposalStorage (finalizeProposal now pid s).2 !! pid = Some p.
Proof.
  intros Hget Hpending Hfew.
  assert (finalizeProposal now pid s = (msg_quorum_not_met pid 3, s)) as Heq.
  { unfold finalizeProposal. rewrite Hget, decide_True by done.
    assert ((votesFor p + votesAgainst p <? quorum) = true) as ->
      by (apply N.ltb_lt; unfold quorum; lia).
    done. }
  by rewrite Heq.
Qed.

Lemma finalizeProposal_below_quorum_witness :
  proposalStorage s_created !! pid1 = Some p_created
  ∧ status p_created = Pending
  ∧ votesFor p_created + votesAgainst p_created < 3
  ∧ finalizeProposal 11 pid1 s_created
    = ("Proposal with id=110ec58a-a0f2-4ac4-8393-c866d813b8d1 did not reach the quorum of 3 votes",
       s_created).
Proof.
  assert (proposalStorage s_created !! pid1 = Some p_created) as H1
    by (vm_compute; reflexivity).
  assert (status p_created = Pending) as H2 by reflexivity.
  assert (votesFor p_created + votesAgainst p_created < 3) as H3 by (cbn; lia).
  split_and!; [exact H1|exact H2|exact H3|].
  exact (proj1 (finalizeProposal_below_quorum 11 pid1 s_created p_created
                  H1 H2 H3)).
Defined.

(** ** voteOnProposal *)

(** C5. A member's vote on a pending proposal, the counter it raises
    being below [2^53], adds one to [votesFor] when [voteFor] is true and
    one to [votesAgainst] when it is false, leaves the other counter alone,
    stamps [updatedAt] with the current time, keeps the seven remaining
    fields, and writes the record back by one insert at the same key. *)
Theorem voteOnProposal_effect now pid voter (vf : bool) s p :
  voter ∈ members s →
  proposalStorage s !! pid = Some p →
  status p = Pending →
  (if vf then votesFor p else votesAgainst p) < 2 ^ 53 →
  voteOnProposal now pid voter vf s =
    (msg_vote_registered vf pid,
     {| proposalStorage :=
          <[pid := {| id := id p; title := title p;
                      description := description p;
                      proposer := proposer p;
                      votesFor := (if vf then votesFor p + 1 else votesFor p);
                      votesAgainst :=
                        (if vf then votesAgainst p else votesAgainst p + 1);
                      status := status p;
                      createdAt := createdAt p;
                      updatedAt := Some now;
                      executionResult := executionResult p |}]>
            (proposalStorage s);
        members := members s |}).
Proof.
  intros Hmember Hget Hpending Hsafe. unfold voteOnProposal.
  rewrite decide_True, Hget, decide_True by done.
  destruct vf; cbn [negb]; by rewrite num_succ_safe.
Qed.

Lemma voteOnProposal_effect_witness :
  "alice" ∈ members s_created
  ∧ proposalStorage s_created !! pid1 = Some p_created
  ∧ status p_created = Pending
  ∧ votesFor p_created < 2 ^ 53
  ∧ (voteOnProposal 11 pid1 "alice" true s_created).1
    = "Vote registered: For for proposal id=110ec58a-a0f2-4ac4-8393-c866d813b8d1"
  ∧ proposalStorage (voteOnProposal 11 pid1 "alice" true s_created).2 !! pid1
    = Some (mkProposal pid1 "T" "D" "alice" 1 0 Pending 10 (Some 11) None).
Proof.
  assert ("alice" ∈ members s_created) as H0 by (vm_compute; reflexivity).
  assert (proposalStorage s_created !! pid1 = Some p_created) as H1
    by (vm_compute; reflexivity).
  assert (status p_created = Pending) as H2 by reflexivity.
  assert (votesFor p_created < 2 ^ 53) as H3 by (vm_compute; reflexivity).
  rewrite (voteOnProposal_effect 11 pid1 "alice" true s_created p_created
             H0 H1 H2 H3).
  split_and!; [exact H0|exact H1|exact H2|exact H3|reflexivity|].
  cbn. by rewrite lookup_insert_eq.
Defined.

(** A pending record with [2^53] votes in favour: a member's vote in
    favour is confirmed and the counter stays where it was. *)
Lemma voteOnProposal_effect_counterexample :
  "alice" ∈ members s_saturated
  ∧ proposalStorage s_saturated !! pid2 = Some p_saturated
  ∧ status p_saturated = Pending
  ∧ votesFor p_saturated = 9007199254740992
  ∧ (voteOnProposal 30 pid2 "alice" true s_saturated).1
    = msg_vote_registered true pid2
  ∧ votesFor <$>
      proposalStorage (voteOnProposal 30 pid2 "alice" true s_saturated).2 !! pid2
    = Some 9007199254740992.
Proof. split_and!; vm_compute; reflexivity. Qed.

(** C6. The three refusals of [voteOnProposal], in the order of the tests:
    a voter who is no member gets the membership text whatever the
    proposal; a member voting on an absent proposal gets the not-found
    text; a member voting on a finalized proposal gets the voting-closed
    text.  In all three the state after the call is the state before. *)
Theorem voteOnProposal_refusals now pid voter vf s :
  (voter ∉ members s →
     voteOnProposal now pid voter vf s = (msg_vote_not_member, s))
  ∧ (voter ∈ members s → proposalStorage s !! pid = None →
     voteOnProposal now pid voter vf s = (msg_not_found pid, s))
  ∧ (∀ p, voter ∈ members s → proposalStorage s !! pid = Some p →
     status p ≠ Pending →
     voteOnProposal now pid voter vf s = (msg_voting_closed pid, s)).
Proof.
  unfold voteOnProposal. repeat split.
  - intros Hout. by rewrite decide_False.
  - intros Hin Hnone. by rewrite decide_True, Hnone.
  - intros p Hin Hget Hclosed. by rewrite decide_True, Hget, decide_False.
Qed.

Lemma voteOnProposal_refusals_witness :
  (("mallory" ∉ members s_created)
   ∧ voteOnProposal 11 pid2 "mallory" true s_created
     = ("Error: Only DAO members can vote on proposals", s_created))
  ∧ ("alice" ∈ members s_created
     ∧ proposalStorage s_created !! pid2 = None
     ∧ voteOnProposal 11 pid2 "alice" true s_created
       = ("Proposal with id=7c9e6679-7425-40de-944b-e07fc1f90ae7 not found",
          s_created))
  ∧ ("alice" ∈ members s_final
     ∧ proposalStorage s_final !! pid1 = Some p_final
     ∧ status p_final ≠ Pending
     ∧ voteOnProposal 15 pid1 "alice" false s_final
       = ("Proposal with id=110ec58a-a0f2-4ac4-8393-c866d813b8d1 is no longer open for voting",
          s_final)).
Proof.
  assert ("mallory" ∉ members s_created) as H0
    by (vm_compute; intros H; discriminate H).
  assert ("alice" ∈ members s_created) as H1 by (vm_compute; reflexivity).
  assert (proposalStorage s_created !! pid2 = None) as H2
    by (vm_compute; reflexivity).
  assert ("alice" ∈ members s_final) as H3 by (vm_compute; reflexivity).
  assert (proposalStorage s_final !! pid1 = Some p_final) as H4
    by (vm_compute; reflexivity).
  assert (status p_final ≠ Pending) as H5 by discriminate.
  destruct (voteOnProposal_refusals 11 pid2 "mallory" true s_created)
    as (Hout & _ & _).
  destruct (voteOnProposal_refusals 11 pid2 "alice" true s_created)
    as (_ & Habsent & _).
  destruct (voteOnProposal_refusals 15 pid1 "alice" false s_final)
    as (_ & _ & Hclosed).
  split_and!;
    [exact H0|exact (Hout H0)|exact H1|exact H2|exact (Habsent H1 H2)
    |exact H3|exact H4|exact H5|exact (Hclosed p_final H3 H4 H5)].
Defined.

(** ** createProposal *)

(** C7. For a member, [createProposal] takes the identifier that
    [uuidv4()] returns as it is, inserts at it the record with that
    identifier, the three given texts, both counters at zero, status
    Pending, [createdAt] the current time and the two nullable fields
    null, and returns the confirmation text built around the identifier;
    [getProposalById] then finds that record.  When no stored record
    used the identifier, every earlier record is still found and
    [getAllProposals] is one longer. *)
Theorem createProposal_by_member uid now who t d s :
  who ∈ members s →
  let fresh :=
    {| id := uid; title := t; description := d; proposer := who;
       votesFor := 0; votesAgainst := 0; status := Pending;
       createdAt := now; updatedAt := None; executionResult := None |} in
  let r := createProposal uid now who t d s in
  r = ("Proposal with id=" +:+ uid +:+ " has been created by " +:+ who,
       {| proposalStorage := <[uid := fresh]> (proposalStorage s);
          members := members s |})
  ∧ getProposalById uid r.2 = inl fresh
  ∧ (proposalStorage s !! uid = None →
     (∀ k p, proposalStorage s !! k = Some p →
        proposalStorage r.2 !! k = Some p)
     ∧ length (getAllProposals r.2) = S (length (getAllProposals s))).
Proof.
  intros Hmember fresh r.
  assert (r = (msg_created uid who,
               {| proposalStorage := <[uid := fresh]> (proposalStorage s);
                  members := members s |})) as Hr.
  { subst r. unfold createProposal. by rewrite decide_True. }
  rewrite Hr. split_and!; [done|..].
  - unfold getProposalById. simpl. by rewrite lookup_insert_eq.
  - intros Hfresh. split.
    + intros k p Hk. simpl. rewrite lookup_insert_ne; [done|]. congruence.
    + unfold getAllProposals. simpl.
      rewrite !length_fmap, !length_map_to_list.
      by apply map_size_insert_None.
Qed.

Lemma createProposal_by_member_witness :
  "bob" ∈ members s_created
  ∧ proposalStorage s_created !! pid2 = None
  ∧ (createProposal pid2 20 "bob" "T2" "D2" s_created).1
    = "Proposal with id=7c9e6679-7425-40de-944b-e07fc1f90ae7 has been created by bob"
  ∧ getProposalById pid2 (createProposal pid2 20 "bob" "T2" "D2" s_created).2
    = inl p_second
  ∧ length (getAllProposals
              (createProposal pid2 20 "bob" "T2" "D2" s_created).2)
    = S (length (getAllProposals s_created)).
Proof.
  assert ("bob" ∈ members s_created) as H0 by (vm_compute; reflexivity).
  assert (proposalStorage s_created !! pid2 = None) as H1
    by (vm_compute; reflexivity).
  destruct (createProposal_by_member pid2 20 "bob" "T2" "D2" s_created H0)
    as (Hr & Hget & Hfresh).
  destruct (Hfresh H1) as [_ Hlen].
  split_and!; [exact H0|exact H1| |exact Hget|exact Hlen].
  by rewrite Hr.
Defined.

(** A member's call that is handed an identifier in use: the identifier
    was in the store before the call, the record that was there is gone
    and [getAllProposals] is no longer than it was. *)
Lemma createProposal_by_member_counterexample :
  "alice" ∈ members s_final
  ∧ proposalStorage s_final !! pid1 = Some p_final
  ∧ (createProposal pid1 40 "alice" "T3" "D3" s_final).1
    = msg_created pid1 "alice"
  ∧ proposalStorage (createProposal pid1 40 "alice" "T3" "D3" s_final).2 !! pid1
    = Some p_collided
  ∧ p_collided ≠ p_final
  ∧ length (getAllProposals (createProposal pid1 40 "alice" "T3" "D3" s_final).2)
    = length (getAllProposals s_final).
Proof. split_and!; try discriminate; vm_compute; reflexivity. Qed.

(** C8. For a proposer who is no member, [createProposal] returns the
    membership text as an ordinary result and the state after the call is
    the state before: the same stored records, so [getAllProposals] has
    the length it had. *)
Theorem createProposal_non_member uid now who t d s :
  who ∉ members s →
  let r := createProposal uid now who t d s in
  r = (msg_create_not_member, s)
  ∧ getAllProposals r.2 = getAllProposals s
  ∧ length (getAllProposals r.2) = length (getAllProposals s).
Proof.
  intros Hout r.
  assert (r = (msg_create_not_member, s)) as ->; [|done].
  subst r. unfold createProposal. by rewrite decide_False.
Qed.

Lemma createProposal_non_member_witness :
  ("mallory" ∉ members s_created)
  ∧ createProposal pid2 20 "mallory" "T2" "D2" s_created
    = ("Error: Only DAO members can create proposals", s_created)
  ∧ length (getAllProposals
              (createProposal pid2 20 "mallory" "T2" "D2" s_created).2)
    = length (getAllProposals s_created).
Proof.
  assert ("mallory" ∉ members s_created) as H0
    by (vm_compute; intros H; discriminate H).
  destruct (createProposal_non_member pid2 20 "mallory" "T2" "D2" s_created H0)
    as (Hr & _ & Hlen).
  split_and!; [exact H0|exact Hr|exact Hlen].
Defined.

(** ** addMember *)

(** C10. [addMember] does not look at its [admin] argument: two calls
    that differ only there return the same text and the same state, also
    when made through [exec]; the text is always the confirmation, and the
    new member set is the old one with [newMember] added. *)
Theorem addMember_ignores_admin admin1 admin2 newMember s :
  addMember admin1 newMember s = addMember admin2 newMember s
  ∧ (∀ w, exec w (AddMember admin1 newMember) s
          = exec w (AddMember admin2 newMember) s)
  ∧ (addMember admin1 newMember s).1
    = "Member with address " +:+ newMember +:+ " has been added to the DAO"
  ∧ members (addMember admin1 newMember s).2 = {[newMember]} ∪ members s
  ∧ proposalStorage (addMember admin1 newMember s).2 = proposalStorage s.
Proof. by repeat split. Qed.

(** ** Every reachable store is consistent *)

Lemma init_consistent : store_consistent init.
Proof. intros k p Hk. cbn in Hk. by rewrite lookup_empty in Hk. Qed.

Lemma createProposal_consistent uid now who t d s :
  store_consistent s → store_consistent (createProposal uid now who t d s).2.
Proof.
  intros Hs k p. unfold createProposal. case_decide; [|apply Hs]. cbn.
  destruct (decide (uid = k)) as [->|Hne].
  - rewrite lookup_insert_eq. intros [= <-].
    unfold result_iff_accepted; cbn. split; [congruence|discriminate].
  - rewrite lookup_insert_ne by done. apply Hs.
Qed.

Lemma voteOnProposal_consistent now pid voter vf s :
  store_consistent s → store_consistent (voteOnProposal now pid voter vf s).2.
Proof.
  intros Hs k p. unfold voteOnProposal. case_decide; [|apply Hs].
  destruct (proposalStorage s !! pid) as [q|] eqn:Hq; [|apply Hs].
  case_decide; [|apply Hs]. cbn.
  destruct (decide (pid = k)) as [->|Hne].
  - rewrite lookup_insert_eq. intros [= <-].
    specialize (Hs _ _ Hq). unfold result_iff_accepted in *. by cbn.
  - rewrite lookup_insert_ne by done. apply Hs.
Qed.

Lemma finalizeProposal_consistent now pid s :
  store_consistent s → store_consistent (finalizeProposal now pid s).2.
Proof.
  intros Hs k p. unfold finalizeProposal.
  destruct (proposalStorage s !! pid) as [q|] eqn:Hq; [|apply Hs].
  case_decide; [|apply Hs].
  destruct (_ <? quorum); [apply Hs|]. cbn.
  destruct (decide (pid = k)) as [->|Hne].
  - rewrite lookup_insert_eq. intros [= <-].
    unfold result_iff_accepted; cbn.
    destruct (threshold <=? votesFor q); cbn; by case_decide.
  - rewrite lookup_insert_ne by done. apply Hs.
Qed.

Lemma exec_consistent w c s :
  store_consistent s → store_consistent (exec w c s).2.
Proof.
  destruct c; cbn [exec snd]; intros Hs;
    auto using createProposal_consistent, voteOnProposal_consistent,
      finalizeProposal_consistent.
Qed.

Lemma run_consistent tr s :
  store_consistent s → store_consistent (run tr s).
Proof.
  revert s. induction tr as [|[w c] tr IH]; intros s Hs; [done|].
  cbn. by apply IH, exec_consistent.
Qed.

(** C3. In every state that a sequence of calls of the six exported
    functions reaches from the empty canister, each stored record has an
    execution result exactly when its status is Accepted. *)
Theorem reachable_result_iff_accepted s k p :
  reachable s →
  proposalStorage s !! k = Some p →
  executionResult p ≠ None ↔ status p = Accepted.
Proof.
  intros [tr <-] Hk.
  exact (run_consistent tr init init_consistent k p Hk).
Qed.

Lemma reachable_result_iff_accepted_witness :
  reachable s_final
  ∧ proposalStorage s_final !! pid1 = Some p_final
  ∧ (executionResult p_final ≠ None ↔ status p_final = Accepted).
Proof.
  assert (reachable s_final) as H0.
  { exists (scenario_setup ++ scenario_votes ++ scenario_finalize).
    vm_compute. reflexivity. }
  assert (proposalStorage s_final !! pid1 = Some p_final) as H1
    by (vm_compute; reflexivity).
  split_and!; [exact H0|exact H1|].
  exact (reachable_result_iff_accepted s_final pid1 p_final H0 H1).
Defined.

(** ** Finalized records are frozen *)

Section Terminal.
Variables (s : State) (pid : string) (p : Proposal).
Hypothesis Hstored : proposalStorage s !! pid = Some p.
Hypothesis Hterminal : status p ≠ Pending.

Lemma finalizeProposal_terminal now :
  finalizeProposal now pid s = (msg_already_finalized pid, s).
Proof. unfold finalizeProposal. by rewrite Hstored, decide_False. Qed.

Lemma voteOnProposal_terminal now voter vf :
  voteOnProposal now pid voter vf s
  = (if decide (voter ∈ members s)
     then msg_voting_closed pid else msg_vote_not_member, s).
Proof.
  unfold voteOnProposal. case_decide; [|done].
  by rewrite Hstored, decide_False.
Qed.

Lemma voteOnProposal_keeps now pid' voter vf :
  proposalStorage (voteOnProposal now pid' voter vf s).2 !! pid = Some p.
Proof.
  destruct (decide (pid' = pid)) as [->|Hne].
  - by rewrite voteOnProposal_terminal.
  - unfold voteOnProposal. case_decide; [|done].
    destruct (proposalStorage s !! pid'); [|done].
    case_decide; [|done]. cbn. by rewrite lookup_insert_ne.
Qed.

Lemma finalizeProposal_keeps now pid' :
  proposalStorage (finalizeProposal now pid' s).2 !! pid = Some p.
Proof.
  destruct (decide (pid' = pid)) as [->|Hne].
  - by rewrite finalizeProposal_terminal.
  - unfold finalizeProposal.
    destruct (proposalStorage s !! pid'); [|done].
    case_decide; [|done]. case_match; [done|].
    cbn. by rewrite lookup_insert_ne.
Qed.

Lemma createProposal_keeps uid now who t d :
  (who ∈ members s → uid ≠ pid) →
  proposalStorage (createProposal uid now who t d s).2 !! pid = Some p.
Proof.
  intros Hspares. unfold createProposal. case_decide; [|done]. cbn.
  rewrite lookup_insert_ne; [done|]. by apply Hspares.
Qed.

Lemma exec_keeps w c :
  uuid_spares pid w c s → proposalStorage (exec w c s).2 !! pid = Some p.
Proof.
  destruct c; cbn [exec snd uuid_spares]; intros Hw;
    auto using createProposal_keeps, voteOnProposal_keeps,
      finalizeProposal_keeps.
Qed.
End Terminal.

Lemma run_keeps tr s pid p :
  proposalStorage s !! pid = Some p →
  status p ≠ Pending →
  uuids_spare pid tr s →
  proposalStorage (run tr s) !! pid = Some p.
Proof.
  revert s. induction tr as [|[w c] tr IH]; intros s Hstored Hterminal Hw;
    [done|].
  destruct Hw as [Hw Htr]. cbn. apply IH; [|done|done].
  by apply exec_keeps.
Qed.

(** C4. Once the record at an identifier is Accepted or Rejected it stays
    as it is.  [finalizeProposal] on it returns the already-finalized text
    and [voteOnProposal] on it returns a refusal, both with the state
    untouched; and after any sequence of calls of the exported functions
    in which no [createProposal] of a member is handed that identifier by
    [uuidv4()], the very same record, field for field, is stored at that
    identifier.  ([createProposal] inserts at the identifier it gets
    without looking it up.) *)
Theorem terminal_is_frozen s pid p :
  proposalStorage s !! pid = Some p →
  status p ≠ Pending →
  (∀ now, finalizeProposal now pid s = (msg_already_finalized pid, s))
  ∧ (∀ now voter vf,
       voteOnProposal now pid voter vf s
       = (if decide (voter ∈ members s)
          then msg_voting_closed pid else msg_vote_not_member, s))
  ∧ (∀ tr, uuids_spare pid tr s →
       proposalStorage (run tr s) !! pid = Some p).
Proof.
  intros Hstored Hterminal. split_and!.
  - intros now. by eapply finalizeProposal_terminal.
  - intros now voter vf. by eapply voteOnProposal_terminal.
  - intros tr Htr. by apply run_keeps.
Qed.

Lemma terminal_is_frozen_witness :
  proposalStorage s_final !! pid1 = Some p_final
  ∧ status p_final ≠ Pending
  ∧ finalizeProposal 15 pid1 s_final
    = ("Proposal with id=110ec58a-a0f2-4ac4-8393-c866d813b8d1 has already been finalized",
       s_final)
  ∧ uuids_spare pid1 scenario_later s_final
  ∧ proposalStorage (run scenario_later s_final) !! pid1 = Some p_final.
Proof.
  assert (proposalStorage s_final !! pid1 = Some p_final) as H0
    by (vm_compute; reflexivity).
  assert (status p_final ≠ Pending) as H1 by discriminate.
  assert (uuids_spare pid1 scenario_later s_final) as H2.
  { cbn [uuids_spare scenario_later uuid_spares uuid]. split_and!; try exact I.
    intros _. discriminate. }
  destruct (terminal_is_frozen s_final pid1 p_final H0 H1)
    as (Hfinalize & _ & Hrun).
  split_and!; [exact H0|exact H1|exact (Hfinalize 15)|exact H2|exact (Hrun _ H2)].
Defined.

(** An Accepted record, and a [createProposal] call of a member that is
    handed the record's identifier: the record is replaced by a new
    pending one. *)
Lemma terminal_is_frozen_counterexample :
  proposalStorage s_final !! pid1 = Some p_final
  ∧ status p_final = Accepted
  ∧ "alice" ∈ members s_final
  ∧ (exec (mkPlatform pid1 40) (CreateProposal "alice" "T3" "D3") s_final).1
    = Text (msg_created pid1 "alice")
  ∧ proposalStorage (run scenario_collision s_final) !! pid1 = Some p_collided
  ∧ status p_collided = Pending.
Proof. split_and!; vm_compute; reflexivity. Qed.

(** ** Counting votes *)


(** A vote changes neither which records exist nor their status. *)
Lemma voteOnProposal_status now pid voter vf s k :
  status <$> proposalStorage (voteOnProposal now pid voter vf s).2 !! k
  = status <$> proposalStorage s !! k.
Proof.
  unfold voteOnProposal. case_decide; [|done].
  destruct (proposalStorage s !! pid) as [q|] eqn:Hq; [|done].
  case_decide; [|done]. cbn.
  destruct (decide (pid = k)) as [->|Hne].
  - by rewrite lookup_insert_eq, Hq.
  - by rewrite lookup_insert_ne.
Qed.

Lemma voteOnProposal_accepted now pid voter vf s b :
  accepted (voteOnProposal now pid voter vf s).2 b = accepted s b.
Proof.
  unfold accepted. rewrite voteOnProposal_members. f_equal.
  pose proof (voteOnProposal_status now pid voter vf s (on_proposal b)) as Hst.
  destruct (proposalStorage (voteOnProposal now pid voter vf s).2
              !! on_proposal b) as [q'|];
    destruct (proposalStorage s !! on_proposal b) as [q|];
    cbn in Hst; try discriminate; [|done].
  by injection Hst as ->.
Qed.

Lemma count_accepted_cons s k b bs :
  count_accepted s k (b :: bs)
  = ((if accepted_on s k b then 1 else 0) + count_accepted s k bs)%nat.
Proof.
  unfold count_accepted. rewrite filter_cons.
  destruct (accepted_on s k b); by case_decide.
Qed.

Lemma count_accepted_ext s s' k bs :
  (∀ b, accepted s' b = accepted s b) →
  count_accepted s' k bs = count_accepted s k bs.
Proof.
  intros Hext. induction bs as [|b bs IH]; [done|].
  rewrite !count_accepted_cons, IH. unfold accepted_on. by rewrite Hext.
Qed.

Lemma cast_status bs s k :
  status <$> proposalStorage (cast bs s).2 !! k
  = status <$> proposalStorage s !! k.
Proof.
  revert s. induction bs as [|b bs IH]; intros s; [done|].
  cbn [cast snd]. by rewrite IH, voteOnProposal_status.
Qed.






(** What one call does to the two counters of the record at [pid]. *)
Lemma voteOnProposal_sides b s pid p :
  proposalStorage s !! pid = Some p →
  ∃ p', proposalStorage
          (voteOnProposal (cast_at b) (on_proposal b) (by_voter b)
             (in_favour b) s).2 !! pid = Some p'
    ∧ votesFor p'
      = (if accepted_on s pid b && in_favour b
         then num_succ (votesFor p) else votesFor p)
    ∧ votesAgainst p'
      = (if accepted_on s pid b && negb (in_favour b)
         then num_succ (votesAgainst p) else votesAgainst p).
Proof.
  intros Hp. destruct b as [now pid' voter vf].
  cbn [cast_at on_proposal by_voter in_favour].
  unfold accepted_on, accepted, voteOnProposal. cbn [by_voter on_proposal].
  destruct (decide (pid' = pid)) as [->|Hne].
  - rewrite Hp, (bool_decide_eq_true_2 (pid = pid)), andb_true_r by done.
    case_decide as Hmember.
    + rewrite bool_decide_eq_true_2 by done. cbn [andb].
      case_decide as Hst.
      * rewrite bool_decide_eq_true_2 by done. cbn.
        rewrite lookup_insert_eq. eexists. split; [done|].
        cbn. by destruct vf.
      * rewrite bool_decide_eq_false_2 by done. cbn. by exists p.
    + rewrite bool_decide_eq_false_2 by done. cbn. by exists p.
  - rewrite (bool_decide_eq_false_2 (pid' = pid)), andb_false_r by done. cbn.
    exists p. split; [|done].
    case_decide; [|done]. destruct (proposalStorage s !! pid'); [|done].
    case_decide; [|done]. cbn. by rewrite lookup_insert_ne.
Qed.

Lemma count_accepted_for_cons s k b bs :
  count_accepted s k (ballots_for (b :: bs))
  = ((if accepted_on s k b && in_favour b then 1 else 0)
     + count_accepted s k (ballots_for bs))%nat.
Proof.
  unfold ballots_for. rewrite filter_cons.
  destruct (in_favour b); cbn.
  - rewrite decide_True by done. rewrite count_accepted_cons.
    by rewrite andb_true_r.
  - rewrite decide_False by done. by rewrite andb_false_r.
Qed.

Lemma count_accepted_against_cons s k b bs :
  count_accepted s k (ballots_against (b :: bs))
  = ((if accepted_on s k b && negb (in_favour b) then 1 else 0)
     + count_accepted s k (ballots_against bs))%nat.
Proof.
  unfold ballots_against. rewrite filter_cons.
  destruct (in_favour b); cbn.
  - rewrite decide_False by done. by rewrite andb_false_r.
  - rewrite decide_True by done. rewrite count_accepted_cons.
    by rewrite andb_true_r.
Qed.


(** After a list of calls each counter has gone through [num_succ] once
    for every accepted ballot of its side. *)
Lemma cast_sides bs s pid p :
  proposalStorage s !! pid = Some p →
  ∃ p', proposalStorage (cast bs s).2 !! pid = Some p'
    ∧ votesFor p'
      = Nat.iter (count_accepted s pid (ballots_for bs)) num_succ (votesFor p)
    ∧ votesAgainst p'
      = Nat.iter (count_accepted s pid (ballots_against bs)) num_succ
          (votesAgainst p).
Proof.
  revert s p. induction bs as [|b bs IH]; intros s p Hp.
  - by exists p.
  - destruct (voteOnProposal_sides b s pid p Hp) as (p1 & Hp1 & Hf1 & Ha1).
    destruct (IH _ p1 Hp1) as (p' & Hp' & Hf & Ha).
    exists p'. cbn [cast snd]. split; [done|].
    rewrite Hf, Ha, Hf1, Ha1.
    rewrite (count_accepted_ext s _ pid (ballots_for bs))
      by apply voteOnProposal_accepted.
    rewrite (count_accepted_ext s _ pid (ballots_against bs))
      by apply voteOnProposal_accepted.
    rewrite count_accepted_for_cons, count_accepted_against_cons.
    split; destruct (accepted_on s pid b), (in_favour b); cbn [andb negb];
      rewrite ?Nat.add_0_l; try done;
      change (1 + ?n)%nat with (S n); by rewrite Nat.iter_succ_r.
Qed.




(** ** The writes of a call *)

(** A call leaves the store alone or makes one insert, one of the four
    that [written] lists. *)
Lemma exec_store_cases w c s :
  proposalStorage (exec w c s).2 = proposalStorage s
  ∨ ∃ k p', written w s c k p'
      ∧ proposalStorage (exec w c s).2 = <[k := p']> (proposalStorage s).
Proof.
  destruct c as [who t d|pid voter vf|pid|adm m| |pid]; cbn [exec snd];
    try by left.
  - unfold createProposal. case_decide; [|by left].
    right. eexists _, _. split; [by constructor|done].
  - unfold voteOnProposal. case_decide; [|by left].
    destruct (proposalStorage s !! pid) as [p|] eqn:Hp; [|by left].
    case_decide as Hst; [|by left].
    right. eexists _, _. split; [by apply (written_vote w s pid voter vf p)|].
    cbn. rewrite Hst. by destruct vf.
  - unfold finalizeProposal.
    destruct (proposalStorage s !! pid) as [p|] eqn:Hp; [|by left].
    case_decide as Hst; [|by left].
    destruct (votesFor p + votesAgainst p <? quorum) eqn:Hq; [by left|].
    apply N.ltb_ge in Hq. right.
    destruct (threshold <=? votesFor p) eqn:Hth.
    + apply N.leb_le in Hth. eexists _, _.
      split; [by apply (written_accept w s pid p)|].
      cbn. by rewrite decide_True.
    + apply N.leb_gt in Hth. eexists _, _.
      split; [by apply (written_reject w s pid p)|].
      cbn. by rewrite decide_False.
Qed.

Lemma exec_lookup_cases w c s k p' :
  proposalStorage (exec w c s).2 !! k = Some p' →
  proposalStorage s !! k = Some p' ∨ written w s c k p'.
Proof.
  destruct (exec_store_cases w c s) as [->|(k0 & p0 & Hw & ->)]; [by left|].
  destruct (decide (k0 = k)) as [->|Hne].
  - rewrite lookup_insert_eq. intros [= <-]. by right.
  - rewrite lookup_insert_ne by done. by left.
Qed.

(** An invariant of [exec] that holds at the start holds of every
    reachable state. *)
Lemma reachable_ind (P : State → Prop) :
  P init → (∀ w c s, P s → P (exec w c s).2) → ∀ s, reachable s → P s.
Proof.
  intros Hinit Hstep s [tr <-].
  assert (∀ s0, P s0 → P (run tr s0)) as Hrun; [|by apply Hrun].
  induction tr as [|[w c] tr IH]; intros s0 Hs0; [done|].
  cbn. by apply IH, Hstep.
Qed.

Lemma record_ok_members s s' k p :
  members s ⊆ members s' → record_ok s k p → record_ok s' k p.
Proof.
  intros Hsub Hok. destruct Hok as [Hid Hprop Hupd Hpend Hacc Hrej].
  split; [exact Hid| |exact Hupd|exact Hpend|exact Hacc|exact Hrej].
  by apply Hsub.
Qed.

Lemma written_ok w c s k p' :
  store_ok s → written w s c k p' → record_ok s k p'.
Proof.
  intros Hs Hw.
  destruct Hw as [who t d Hin|pid voter vf p Hin Hp Hst
    |pid p Hp Hst Hq Hth|pid p Hp Hst Hq Hth];
    unfold quorum, threshold in *.
  - split; cbn; done.
  - destruct (Hs _ _ Hp) as [Hid Hprop Hupd Hpend _ _].
    split; cbn; [done|done| |by intros _; apply Hpend|done|done].
    pose proof (num_succ_pos (votesFor p)).
    pose proof (num_succ_pos (votesAgainst p)).
    destruct vf; split; try done; lia.
  - destruct (Hs _ _ Hp) as [Hid Hprop Hupd Hpend _ _].
    split; cbn; [done|done| |done|done|done].
    split; [done|lia].
  - destruct (Hs _ _ Hp) as [Hid Hprop Hupd Hpend _ _].
    split; cbn; [done|done| |done|done|done].
    split; [done|lia].
Qed.

Lemma exec_store_ok w c s : store_ok s → store_ok (exec w c s).2.
Proof.
  intros Hs k p' Hk.
  apply (record_ok_members s); [apply exec_members_mono|].
  destruct (exec_lookup_cases _ _ _ _ _ Hk) as [Hold|Hw]; [by apply Hs|].
  by eapply written_ok.
Qed.

Lemma reachable_store_ok s : reachable s → store_ok s.
Proof.
  apply reachable_ind; [|apply exec_store_ok].
  intros k p Hk. cbn in Hk. by rewrite lookup_empty in Hk.
Qed.

(** ** Records of a reachable store *)

Lemma s_final_reachable : reachable s_final.
Proof.
  exists (scenario_setup ++ scenario_votes ++ scenario_finalize).
  vm_compute. reflexivity.
Qed.

Lemma s_rejected_reachable : reachable s_rejected.
Proof. exists (scenario_setup ++ scenario_rejected). vm_compute. reflexivity. Qed.

Lemma s_voted_reachable : reachable s_voted.
Proof. exists (scenario_setup ++ scenario_votes). vm_compute. reflexivity. Qed.

(** X1. In every reachable state the record stored under a key carries
    that key in its [id] field: [createProposal] uses the identifier for
    both, and the two other writers copy [id] and insert at the key they
    read from. *)
Theorem reachable_key_is_id s k p :
  reachable s → proposalStorage s !! k = Some p → id p = k.
Proof. intros Hs Hk. by destruct (reachable_store_ok s Hs k p Hk). Qed.

Lemma reachable_key_is_id_witness :
  reachable s_final
  ∧ proposalStorage s_final !! pid1 = Some p_final
  ∧ id p_final = pid1.
Proof.
  assert (proposalStorage s_final !! pid1 = Some p_final) as H1
    by (vm_compute; reflexivity).
  split_and!; [exact s_final_reachable|exact H1|].
  exact (reachable_key_is_id s_final pid1 p_final s_final_reachable H1).
Defined.

(** X2. In every reachable state the proposer of every stored record is
    a member: it was one when [createProposal] accepted it, and nothing
    removes members. *)
Theorem reachable_proposer_is_member s k p :
  reachable s → proposalStorage s !! k = Some p → proposer p ∈ members s.
Proof. intros Hs Hk. by destruct (reachable_store_ok s Hs k p Hk). Qed.

Lemma reachable_proposer_is_member_witness :
  reachable s_final
  ∧ proposalStorage s_final !! pid1 = Some p_final
  ∧ proposer p_final ∈ members s_final.
Proof.
  assert (proposalStorage s_final !! pid1 = Some p_final) as H1
    by (vm_compute; reflexivity).
  split_and!; [exact s_final_reachable|exact H1|].
  exact (reachable_proposer_is_member s_final pid1 p_final
           s_final_reachable H1).
Defined.

(** X3. In every reachable state [updatedAt] is null exactly for the
    records nobody has voted on: the first accepted vote sets it, and
    finalization needs three votes. *)
Theorem reachable_updated_iff_voted s k p :
  reachable s → proposalStorage s !! k = Some p →
  updatedAt p = None ↔ votesFor p + votesAgainst p = 0.
Proof. intros Hs Hk. by destruct (reachable_store_ok s Hs k p Hk). Qed.

Lemma reachable_updated_iff_voted_witness :
  reachable s_voted
  ∧ proposalStorage s_voted !! pid1 = Some p_voted
  ∧ (updatedAt p_voted = None ↔ votesFor p_voted + votesAgainst p_voted = 0).
Proof.
  assert (proposalStorage s_voted !! pid1 = Some p_voted) as H1
    by (vm_compute; reflexivity).
  split_and!; [exact s_voted_reachable|exact H1|].
  exact (reachable_updated_iff_voted s_voted pid1 p_voted s_voted_reachable H1).
Defined.

(** X4. In every reachable state a finalized record shows why it was
    decided so: it has at least three votes, an Accepted one has at least
    two in favour, a Rejected one has at most one in favour and hence at
    least two against. *)
Theorem reachable_outcome_justified s k p :
  reachable s → proposalStorage s !! k = Some p →
  (status p = Accepted → 3 ≤ votesFor p + votesAgainst p ∧ 2 ≤ votesFor p)
  ∧ (status p = Rejected →
     3 ≤ votesFor p + votesAgainst p ∧ votesFor p ≤ 1 ∧ 2 ≤ votesAgainst p).
Proof.
  intros Hs Hk.
  destruct (reachable_store_ok s Hs k p Hk) as [_ _ _ _ Hacc Hrej].
  unfold quorum, threshold in *. split.
  - intros Hst. destruct (Hacc Hst) as (? & ? & _). done.
  - intros Hst. destruct (Hrej Hst) as (? & ? & _). lia.
Qed.

Lemma reachable_outcome_justified_witness :
  reachable s_rejected
  ∧ proposalStorage s_rejected !! pid2 = Some p_rejected
  ∧ status p_rejected = Rejected
  ∧ 3 ≤ votesFor p_rejected + votesAgainst p_rejected
  ∧ votesFor p_rejected ≤ 1
  ∧ 2 ≤ votesAgainst p_rejected.
Proof.
  assert (proposalStorage s_rejected !! pid2 = Some p_rejected) as H1
    by (vm_compute; reflexivity).
  assert (status p_rejected = Rejected) as H2 by reflexivity.
  destruct (reachable_outcome_justified s_rejected pid2 p_rejected
              s_rejected_reachable H1) as [_ Hrej].
  destruct (Hrej H2) as (Ha & Hb & Hc).
  split_and!; [exact s_rejected_reachable|exact H1|exact H2
              |exact Ha|exact Hb|exact Hc].
Defined.

(** X5. In every reachable state an execution result, when there is one,
    is the text of [executeProposal] for the record's own identifier. *)
Theorem reachable_execution_text s k p r :
  reachable s → proposalStorage s !! k = Some p →
  executionResult p = Some r →
  r = "Proposal id=" +:+ id p +:+ " executed successfully".
Proof.
  intros Hs Hk Hr.
  destruct (reachable_store_ok s Hs k p Hk) as [Hid _ _ Hpend Hacc Hrej].
  destruct (status p) eqn:Hst.
  - rewrite Hpend in Hr; done.
  - destruct Hacc as (_ & _ & Hres); [done|].
    rewrite Hres in Hr. injection Hr as <-. by rewrite Hid.
  - destruct Hrej as (_ & _ & Hres); [done|]. rewrite Hres in Hr. done.
Qed.

Lemma reachable_execution_text_witness :
  reachable s_final
  ∧ proposalStorage s_final !! pid1 = Some p_final
  ∧ executionResult p_final
    = Some "Proposal id=110ec58a-a0f2-4ac4-8393-c866d813b8d1 executed successfully"
  ∧ "Proposal id=110ec58a-a0f2-4ac4-8393-c866d813b8d1 executed successfully"
    = "Proposal id=" +:+ id p_final +:+ " executed successfully".
Proof.
  assert (proposalStorage s_final !! pid1 = Some p_final) as H1
    by (vm_compute; reflexivity).
  assert (executionResult p_final
          = Some "Proposal id=110ec58a-a0f2-4ac4-8393-c866d813b8d1 executed successfully")
    as H2 by reflexivity.
  split_and!; [exact s_final_reachable|exact H1|exact H2|].
  exact (reachable_execution_text s_final pid1 p_final _
           s_final_reachable H1 H2).
Defined.

(** ** Listing and looking up *)

Lemma elem_of_getAllProposals s p :
  p ∈ getAllProposals s ↔ ∃ k, proposalStorage s !! k = Some p.
Proof.
  unfold getAllProposals. rewrite list_elem_of_fmap. split.
  - intros ([k q] & -> & Hin). exists k. by apply elem_of_map_to_list.
  - intros [k Hk]. exists (k, p). split; [done|].
    by apply elem_of_map_to_list.
Qed.

(** X6. In every reachable state [getAllProposals] and [getProposalById]
    agree: a record is in the list exactly when looking up its own [id]
    returns it. *)
Theorem reachable_listed_iff_found s p :
  reachable s →
  p ∈ getAllProposals s ↔ getProposalById (id p) s = inl p.
Proof.
  intros Hs. rewrite elem_of_getAllProposals. unfold getProposalById. split.
  - intros [k Hk]. rewrite (reachable_store_ok s Hs k p Hk).(ok_id _ _ _).
    by rewrite Hk.
  - intros Hget. exists (id p).
    destruct (proposalStorage s !! id p); [|done]. by injection Hget as ->.
Qed.

Lemma reachable_listed_iff_found_witness :
  reachable s_final
  ∧ (p_final ∈ getAllProposals s_final
     ↔ getProposalById (id p_final) s_final = inl p_final).
Proof.
  split; [exact s_final_reachable|].
  exact (reachable_listed_iff_found s_final p_final s_final_reachable).
Defined.

(** X7. In every reachable state the records that [getAllProposals]
    returns have pairwise different [id]s. *)
Theorem reachable_ids_distinct s :
  reachable s → NoDup (id <$> getAllProposals s).
Proof.
  intros Hs. unfold getAllProposals. rewrite <-list_fmap_compose.
  rewrite (list_fmap_ext (id ∘ snd) fst (map_to_list (proposalStorage s))).
  - apply NoDup_fst_map_to_list.
  - intros i [k p] Hi. cbn.
    apply (reachable_store_ok s Hs k p).
    apply elem_of_map_to_list. by eapply list_elem_of_lookup_2.
Qed.

Lemma reachable_ids_distinct_witness :
  reachable s_rejected ∧ NoDup (id <$> getAllProposals s_rejected).
Proof.
  split; [exact s_rejected_reachable|].
  exact (reachable_ids_distinct s_rejected s_rejected_reachable).
Defined.

(** ** What a run adds *)

Lemma exec_members w c s :
  members (exec w c s).2
  = members s ∪ added_members [(w, c)].
Proof.
  destruct c; cbn [exec snd added_members];
    rewrite ?createProposal_members, ?voteOnProposal_members,
      ?finalizeProposal_members; try set_solver.
Qed.

(** X8. After any run the members are those of the start together with
    every [newMember] that an [addMember] call of the run named, whoever
    the [admin] was; no call removes one. *)
Theorem run_members tr s :
  members (run tr s) = members s ∪ added_members tr.
Proof.
  revert s. induction tr as [|[w c] tr IH]; intros s.
  - cbn. set_solver.
  - cbn [run]. rewrite IH, exec_members.
    destruct c; cbn [added_members]; set_solver.
Qed.

Lemma dom_insert_present (m : gmap string Proposal) k p p' :
  m !! k = Some p → dom (<[k := p']> m) = dom m.
Proof.
  intros Hk. rewrite dom_insert_L.
  apply (elem_of_dom_2 (D := gset string)) in Hk. set_solver.
Qed.

Lemma exec_dom w c s :
  dom (proposalStorage (exec w c s).2)
  = dom (proposalStorage s) ∪ created_ids [(w, c)] s.
Proof.
  cbn [created_ids].
  destruct c as [who t d|pid voter vf|pid|adm m| |pid]; cbn [exec snd].
  - unfold createProposal. case_decide; cbn; [|set_solver].
    rewrite dom_insert_L. set_solver.
  - rewrite !union_empty_r_L. unfold voteOnProposal. case_decide; [|done].
    destruct (proposalStorage s !! pid) as [p|] eqn:Hp; [|done].
    case_decide; [|done]. cbn. by erewrite dom_insert_present.
  - rewrite !union_empty_r_L. unfold finalizeProposal.
    destruct (proposalStorage s !! pid) as [p|] eqn:Hp; [|done].
    case_decide; [|done]. case_match; [done|].
    cbn. by erewrite dom_insert_present.
  - cbn. by rewrite !union_empty_r_L.
  - by rewrite !union_empty_r_L.
  - by rewrite !union_empty_r_L.
Qed.

Lemma run_dom tr s :
  dom (proposalStorage (run tr s)) = dom (proposalStorage s) ∪ created_ids tr s.
Proof.
  revert s. induction tr as [|[w c] tr IH]; intros s.
  - cbn. set_solver.
  - cbn [run]. rewrite IH, exec_dom. cbn [created_ids]. set_solver.
Qed.

(** X9. The keys of the store after a run are the keys at the start and
    the identifiers that [createProposal] was handed for a member: no
    call deletes a record and no other call adds one.  From the empty
    canister, [getAllProposals] returns as many records as there are
    such identifiers. *)
Theorem run_keys tr s :
  dom (proposalStorage (run tr s)) = dom (proposalStorage s) ∪ created_ids tr s
  ∧ length (getAllProposals (run tr init)) = size (created_ids tr init).
Proof.
  split; [apply run_dom|].
  unfold getAllProposals. rewrite length_fmap, length_map_to_list.
  rewrite <-size_dom, run_dom. cbn. rewrite dom_empty_L.
  f_equal. set_solver.
Qed.

(** ** What a record keeps *)

Lemma grows_refl p : grows p p.
Proof. unfold grows. split_and!; done. Qed.

Lemma grows_trans p q r : grows p q → grows q r → grows p r.
Proof.
  unfold grows. intros (?&?&?&?&?&?&?) (?&?&?&?&?&?&?).
  split_and!; try congruence; lia.
Qed.

Lemma exec_grows w c s k p :
  proposalStorage s !! k = Some p →
  uuid_unused w c s →
  ∃ p', proposalStorage (exec w c s).2 !! k = Some p' ∧ grows p p'.
Proof.
  intros Hk Hfresh.
  destruct (exec_store_cases w c s) as [->|(k0 & p0 & Hw & ->)].
  { exists p. split; [done|apply grows_refl]. }
  destruct (decide (k0 = k)) as [->|Hne].
  2: { exists p. rewrite lookup_insert_ne by done.
       split; [done|apply grows_refl]. }
  rewrite lookup_insert_eq. exists p0. split; [done|].
  destruct Hw as [who t d Hin|pid voter vf q Hin Hq Hst
    |pid q Hq Hst Hquo Hth|pid q Hq Hst Hquo Hth].
  - cbn in Hfresh. rewrite Hfresh in Hk; done.
  - rewrite Hk in Hq. injection Hq as <-.
    pose proof (num_succ_ge (votesFor p)).
    pose proof (num_succ_ge (votesAgainst p)).
    unfold grows; cbn. split_and!; try done; destruct vf; lia.
  - rewrite Hk in Hq. injection Hq as <-. unfold grows; cbn. by split_and!.
  - rewrite Hk in Hq. injection Hq as <-. unfold grows; cbn. by split_and!.
Qed.

(** X10. A stored record is never lost and never rewritten in its
    creation data: after any run, [uuidv4()] handing out unused
    identifiers, the key still holds a record with the same [id], [title],
    [description], [proposer] and [createdAt], and with counters that are
    at least what they were. *)
Theorem run_grows tr s k p :
  proposalStorage s !! k = Some p →
  uuids_unused tr s →
  ∃ p', proposalStorage (run tr s) !! k = Some p' ∧ grows p p'.
Proof.
  revert s p. induction tr as [|[w c] tr IH]; intros s p Hk Hfresh.
  - exists p. split; [done|apply grows_refl].
  - destruct Hfresh as [Hw Htr].
    destruct (exec_grows w c s k p Hk Hw) as (q & Hq & Hpq).
    destruct (IH _ q Hq Htr) as (r & Hr & Hqr).
    exists r. split; [done|]. by eapply grows_trans.
Qed.

Lemma run_grows_witness :
  proposalStorage s_created !! pid1 = Some p_created
  ∧ uuids_unused (scenario_votes ++ scenario_finalize) s_created
  ∧ ∃ p', proposalStorage (run (scenario_votes ++ scenario_finalize) s_created)
            !! pid1 = Some p'
      ∧ grows p_created p'.
Proof.
  assert (proposalStorage s_created !! pid1 = Some p_created) as H0
    by (vm_compute; reflexivity).
  assert (uuids_unused (scenario_votes ++ scenario_finalize) s_created) as H1.
  { cbn [uuids_unused scenario_votes scenario_finalize uuid_unused app].
    split_and!; exact I. }
  split_and!; [exact H0|exact H1|].
  exact (run_grows _ s_created pid1 p_created H0 H1).
Defined.

(** ** One key at a time *)

(** X11. Each of the three writers touches the record at one key only:
    [createProposal] at the identifier it is handed, [voteOnProposal]
    and [finalizeProposal] at their [proposalId]; whatever the outcome,
    the record found under any other key is the one that was there. *)
Theorem writers_touch_one_key s k :
  (∀ uid now who t d, k ≠ uid →
     proposalStorage (createProposal uid now who t d s).2 !! k
     = proposalStorage s !! k)
  ∧ (∀ now pid voter vf, k ≠ pid →
     proposalStorage (voteOnProposal now pid voter vf s).2 !! k
     = proposalStorage s !! k)
  ∧ (∀ now pid, k ≠ pid →
     proposalStorage (finalizeProposal now pid s).2 !! k
     = proposalStorage s !! k).
Proof.
  split_and!.
  - intros uid now who t d Hne. unfold createProposal.
    case_decide; [|done]. cbn. by rewrite lookup_insert_ne.
  - intros now pid voter vf Hne. unfold voteOnProposal.
    case_decide; [|done]. destruct (proposalStorage s !! pid); [|done].
    case_decide; [|done]. cbn. by rewrite lookup_insert_ne.
  - intros now pid Hne. unfold finalizeProposal.
    destruct (proposalStorage s !! pid); [|done].
    case_decide; [|done]. case_match; [done|].
    cbn. by rewrite lookup_insert_ne.
Qed.

Lemma writers_touch_one_key_witness :
  pid1 ≠ pid2
  ∧ proposalStorage (createProposal pid2 20 "bob" "T2" "D2" s_voted).2 !! pid1
    = proposalStorage s_voted !! pid1
  ∧ proposalStorage (voteOnProposal 20 pid2 "bob" true s_voted).2 !! pid1
    = proposalStorage s_voted !! pid1
  ∧ proposalStorage (finalizeProposal 20 pid2 s_voted).2 !! pid1
    = proposalStorage s_voted !! pid1.
Proof.
  assert (pid1 ≠ pid2) as H0 by discriminate.
  destruct (writers_touch_one_key s_voted pid1) as (Hc & Hv & Hf).
  split_and!; [exact H0|exact (Hc _ _ _ _ _ H0)|exact (Hv _ _ _ _ H0)
              |exact (Hf _ _ H0)].
Defined.

(** ** Time stamps *)

Lemma exec_stamps w c s t0 :
  stamps_le t0 s → t0 ≤ time w → stamps_le (time w) (exec w c s).2.
Proof.
  intros Hs Hle k p' Hk.
  destruct (exec_lookup_cases _ _ _ _ _ Hk) as [Hold|Hw].
  - destruct (Hs _ _ Hold) as [Hc Hu]. split; [lia|].
    intros u Hup. destruct (Hu u Hup). lia.
  - destruct Hw as [who t d Hin|pid voter vf p Hin Hp Hst
      |pid p Hp Hst Hq Hth|pid p Hp Hst Hq Hth]; cbn;
      try destruct (Hs _ _ Hp) as [Hc _];
      (split; [lia|intros u [= <-]; lia]) || (split; [lia|done]).
Qed.

Lemma run_stamps tr s t0 :
  stamps_le t0 s → clock_from t0 tr → ∃ t1, stamps_le t1 (run tr s).
Proof.
  revert s t0. induction tr as [|[w c] tr IH]; intros s t0 Hs Hclock.
  - by exists t0.
  - destruct Hclock as [Hle Hclock]. cbn [run].
    by apply (IH _ (time w)); [apply (exec_stamps w c s t0)|].
Qed.

(** X12. With a clock that never runs backwards, from the empty
    canister, no stored record is updated before it was created:
    [createdAt] is at most [updatedAt] whenever the latter is set. *)
Theorem run_created_before_updated tr k p u :
  clock_from 0 tr →
  proposalStorage (run tr init) !! k = Some p →
  updatedAt p = Some u →
  createdAt p ≤ u.
Proof.
  intros Hclock Hk Hu.
  destruct (run_stamps tr init 0) as [t1 Ht1]; [|done|].
  - intros k' p' Hk'. cbn in Hk'. by rewrite lookup_empty in Hk'.
  - destruct (Ht1 _ _ Hk) as [_ Hup]. by destruct (Hup u Hu).
Qed.

Lemma run_created_before_updated_witness :
  clock_from 0 (scenario_setup ++ scenario_votes ++ scenario_finalize)
  ∧ proposalStorage
      (run (scenario_setup ++ scenario_votes ++ scenario_finalize) init)
      !! pid1 = Some p_final
  ∧ updatedAt p_final = Some 14
  ∧ createdAt p_final ≤ 14.
Proof.
  assert (clock_from 0 (scenario_setup ++ scenario_votes ++ scenario_finalize))
    as H0.
  { cbn [clock_from scenario_setup scenario_votes scenario_finalize app time].
    split_and!; try exact I; lia. }
  assert (proposalStorage
            (run (scenario_setup ++ scenario_votes ++ scenario_finalize) init)
            !! pid1 = Some p_final) as H1 by (vm_compute; reflexivity).
  assert (updatedAt p_final = Some 14) as H2 by reflexivity.
  split_and!; [exact H0|exact H1|exact H2|].
  exact (run_created_before_updated _ pid1 p_final 14 H0 H1 H2).
Defined.

(** ** The two counters apart *)

(** X13. After any list of [voteOnProposal] calls, the record at an
    identifier has gained in [votesFor] the number of accepted calls on
    it with [voteFor] true, provided that leaves [votesFor] at [2^53] or
    below, and in [votesAgainst] the number with [voteFor] false, under
    the same proviso: no vote lands on the wrong side or on another
    proposal. *)
Theorem cast_counts_each_side bs s pid p :
  proposalStorage s !! pid = Some p →
  ∃ p', proposalStorage (cast bs s).2 !! pid = Some p'
    ∧ (votesFor p + N.of_nat (count_accepted s pid (ballots_for bs)) ≤ 2 ^ 53 →
       votesFor p'
       = votesFor p + N.of_nat (count_accepted s pid (ballots_for bs)))
    ∧ (votesAgainst p + N.of_nat (count_accepted s pid (ballots_against bs))
         ≤ 2 ^ 53 →
       votesAgainst p'
       = votesAgainst p
         + N.of_nat (count_accepted s pid (ballots_against bs))).
Proof.
  intros Hp. destruct (cast_sides bs s pid p Hp) as (p' & Hp' & Hf & Ha).
  exists p'. split_and!; [done| |].
  - intros Hsafe. by rewrite Hf, num_succ_iter_safe.
  - intros Hsafe. by rewrite Ha, num_succ_iter_safe.
Qed.

Lemma cast_counts_each_side_witness :
  proposalStorage s_created !! pid1 = Some p_created
  ∧ votesFor p_created
    + N.of_nat (count_accepted s_created pid1 (ballots_for scenario_ballots))
    ≤ 2 ^ 53
  ∧ votesAgainst p_created
    + N.of_nat (count_accepted s_created pid1
                  (ballots_against scenario_ballots))
    ≤ 2 ^ 53
  ∧ ∃ p', proposalStorage (cast scenario_ballots s_created).2 !! pid1 = Some p'
      ∧ votesFor p' = 1 ∧ votesAgainst p' = 1.
Proof.
  assert (proposalStorage s_created !! pid1 = Some p_created) as H0
    by (vm_compute; reflexivity).
  assert (votesFor p_created
          + N.of_nat (count_accepted s_created pid1
                        (ballots_for scenario_ballots)) ≤ 2 ^ 53) as H1
    by (vm_compute; discriminate).
  assert (votesAgainst p_created
          + N.of_nat (count_accepted s_created pid1
                        (ballots_against scenario_ballots)) ≤ 2 ^ 53) as H2
    by (vm_compute; discriminate).
  destruct (cast_counts_each_side scenario_ballots s_created pid1 p_created H0)
    as (p' & Hp' & Hf & Ha).
  split_and!; [exact H0|exact H1|exact H2|].
  exists p'. split_and!; [exact Hp'| |].
  - rewrite (Hf H1). vm_compute. reflexivity.
  - rewrite (Ha H2). vm_compute. reflexivity.
Defined.

Lemma count_accepted_replicate s pid p n now m :
  m ∈ members s →
  proposalStorage s !! pid = Some p →
  status p = Pending →
  count_accepted s pid (ballots_for (replicate n (mkBallot now pid m true))) = n.
Proof.
  intros Hm Hp Hst. induction n as [|n IH]; [done|].
  cbn [replicate]. rewrite count_accepted_for_cons, IH.
  unfold accepted_on, accepted. cbn.
  by rewrite Hp, !bool_decide_eq_true_2.
Qed.

(** Repeated [+ 1] reaches what exact addition would, or [2^53]. *)
Lemma num_succ_iter_lower n x :
  N.min (x + N.of_nat n) (2 ^ 53) ≤ Nat.iter n num_succ x.
Proof.
  induction n as [|n IH]; [cbn; lia|]. rewrite Nat.iter_succ.
  destruct (decide (Nat.iter n num_succ x < 2 ^ 53)) as [Hlt|Hge].
  - rewrite num_succ_safe by done. lia.
  - pose proof (num_succ_ge (Nat.iter n num_succ x)). lia.
Qed.

(** X14. Votes are not tied to voters: one member voting in favour three
    times or more on a pending proposal is enough for [finalizeProposal]
    to accept it, whatever the votes it had. *)
Theorem one_member_can_pass s pid p m n now later :
  m ∈ members s →
  proposalStorage s !! pid = Some p →
  status p = Pending →
  (3 ≤ n)%nat →
  let s' := (cast (replicate n (mkBallot now pid m true)) s).2 in
  (finalizeProposal later pid s').1 = msg_finalized pid Accepted
  ∧ status <$> proposalStorage (finalizeProposal later pid s').2 !! pid
    = Some Accepted.
Proof.
  intros Hm Hp Hst Hn s'.
  destruct (cast_sides (replicate n (mkBallot now pid m true)) s pid p Hp)
    as (p' & Hp' & Hf & _).
  rewrite (count_accepted_replicate s pid p) in Hf by done.
  pose proof (num_succ_iter_lower n (votesFor p)) as Hlow.
  rewrite <-Hf in Hlow.
  assert (3 ≤ votesFor p') as Hthree.
  { assert (3 ≤ 2 ^ 53) by (vm_compute; discriminate). lia. }
  pose proof (cast_status (replicate n (mkBallot now pid m true)) s pid) as Hs.
  fold s' in Hp', Hs. rewrite Hp', Hp in Hs. cbn in Hs.
  unfold finalizeProposal. rewrite Hp'.
  rewrite decide_True by congruence.
  assert ((votesFor p' + votesAgainst p' <? quorum) = false) as ->
    by (apply N.ltb_ge; unfold quorum; lia).
  assert ((threshold <=? votesFor p') = true) as ->
    by (apply N.leb_le; unfold threshold; lia).
  cbn. by rewrite lookup_insert_eq.
Qed.

Lemma one_member_can_pass_witness :
  "alice" ∈ members s_created
  ∧ proposalStorage s_created !! pid1 = Some p_created
  ∧ status p_created = Pending
  ∧ (3 ≤ 3)%nat
  ∧ (finalizeProposal 20 pid1
       (cast (replicate 3 (mkBallot 11 pid1 "alice" true)) s_created).2).1
    = "Proposal with id=110ec58a-a0f2-4ac4-8393-c866d813b8d1 has been Accepted".
Proof.
  assert ("alice" ∈ members s_created) as H0 by (vm_compute; reflexivity).
  assert (proposalStorage s_created !! pid1 = Some p_created) as H1
    by (vm_compute; reflexivity).
  assert (status p_created = Pending) as H2 by reflexivity.
  assert (3 ≤ 3)%nat as H3 by lia.
  split_and!; [exact H0|exact H1|exact H2|exact H3|].
  exact (proj1 (one_member_can_pass s_created pid1 p_created "alice" 3 11 20
                  H0 H1 H2 H3)).
Defined.

(** ** Telling the outcome from the text *)

(** Two texts of [finalizeProposal] for the same identifier that differ
    after the identifier are different texts. *)
Lemma text_after_id (pid tail1 tail2 : string) :
  "Proposal with id=" +:+ pid +:+ tail1 = "Proposal with id=" +:+ pid +:+ tail2 →
  tail1 = tail2.
Proof. intros H. by do 2 apply (inj (String.app _)) in H. Qed.

Ltac text_clash H :=
  exfalso; unfold msg_not_found, msg_already_finalized, msg_quorum_not_met,
    msg_finalized, msg_voting_closed, status_text in H;
  apply text_after_id in H; vm_compute in H; discriminate H.

(** The five ways [finalizeProposal] can end, each with its text. *)
Lemma finalizeProposal_cases now pid s :
  (proposalStorage s !! pid = None
   ∧ (finalizeProposal now pid s).1 = msg_not_found pid)
  ∨ (∃ p, proposalStorage s !! pid = Some p ∧
       ((status p ≠ Pending
         ∧ (finalizeProposal now pid s).1 = msg_already_finalized pid)
        ∨ (status p = Pending ∧ votesFor p + votesAgainst p < 3
           ∧ (finalizeProposal now pid s).1 = msg_quorum_not_met pid 3)
        ∨ (status p = Pending ∧ 3 ≤ votesFor p + votesAgainst p
           ∧ 2 ≤ votesFor p
           ∧ (finalizeProposal now pid s).1 = msg_finalized pid Accepted)
        ∨ (status p = Pending ∧ 3 ≤ votesFor p + votesAgainst p
           ∧ votesFor p < 2
           ∧ (finalizeProposal now pid s).1 = msg_finalized pid Rejected))).
Proof.
  unfold finalizeProposal.
  destruct (proposalStorage s !! pid) as [p|]; [right; exists p|by left].
  split; [done|]. case_decide as Hst; [|by left].
  right. unfold quorum, threshold.
  destruct (votesFor p + votesAgainst p <? 3) eqn:Hq.
  { apply N.ltb_lt in Hq. by left. }
  apply N.ltb_ge in Hq. right.
  destruct (2 <=? votesFor p) eqn:Hth.
  - apply N.leb_le in Hth. by left.
  - apply N.leb_gt in Hth. by right.
Qed.

(** X15. The text that [finalizeProposal] returns tells the caller which
    of its five outcomes took place: not found exactly when the
    identifier is absent, already finalized exactly when the record is
    not pending, quorum not reached exactly when a pending record has
    fewer than three votes, Accepted and Rejected exactly when a pending
    record with three votes has, or has not, two in favour. *)
Theorem finalizeProposal_text_tells now pid s :
  ((finalizeProposal now pid s).1 = msg_not_found pid
   ↔ proposalStorage s !! pid = None)
  ∧ ((finalizeProposal now pid s).1 = msg_already_finalized pid
     ↔ ∃ p, proposalStorage s !! pid = Some p ∧ status p ≠ Pending)
  ∧ ((finalizeProposal now pid s).1 = msg_quorum_not_met pid 3
     ↔ ∃ p, proposalStorage s !! pid = Some p ∧ status p = Pending
         ∧ votesFor p + votesAgainst p < 3)
  ∧ ((finalizeProposal now pid s).1 = msg_finalized pid Accepted
     ↔ ∃ p, proposalStorage s !! pid = Some p ∧ status p = Pending
         ∧ 3 ≤ votesFor p + votesAgainst p ∧ 2 ≤ votesFor p)
  ∧ ((finalizeProposal now pid s).1 = msg_finalized pid Rejected
     ↔ ∃ p, proposalStorage s !! pid = Some p ∧ status p = Pending
         ∧ 3 ≤ votesFor p + votesAgainst p ∧ votesFor p < 2).
Proof.
  destruct (finalizeProposal_cases now pid s)
    as [[Hnone Ht]|(p & Hp & [[Hst Ht]|[(Hst & Hq & Ht)
         |[(Hst & Hq & Hth & Ht)|(Hst & Hq & Hth & Ht)]]])];
    rewrite Ht; split_and!; split;
    try (intros H; text_clash H);
    try (intros (q & Hq' & Hrest); rewrite Hq' in *; simplify_eq;
         destruct_and?; done || lia);
    try (intros Hnone'; congruence);
    try done; try (intros _; exists p; done).
Qed.

Ltac first_letter H :=
  exfalso; unfold msg_not_found, msg_voting_closed, msg_vote_registered,
    msg_vote_not_member, msg_created, msg_create_not_member in H;
  cbn in H; discriminate H.

(** The four ways [voteOnProposal] can end, each with its text. *)
Lemma voteOnProposal_cases now pid voter vf s :
  ((voter ∉ members s)
   ∧ (voteOnProposal now pid voter vf s).1 = msg_vote_not_member)
  ∨ (voter ∈ members s ∧
       ((proposalStorage s !! pid = None
         ∧ (voteOnProposal now pid voter vf s).1 = msg_not_found pid)
        ∨ ∃ p, proposalStorage s !! pid = Some p ∧
            ((status p ≠ Pending
              ∧ (voteOnProposal now pid voter vf s).1 = msg_voting_closed pid)
             ∨ (status p = Pending
                ∧ (voteOnProposal now pid voter vf s).1
                  = msg_vote_registered vf pid)))).
Proof.
  unfold voteOnProposal. case_decide as Hm; [right|by left].
  split; [done|].
  destruct (proposalStorage s !! pid) as [p|]; [right; exists p|by left].
  split; [done|]. case_decide; [by right|by left].
Qed.

(** X16. The texts of [createProposal] and [voteOnProposal] tell the
    caller what happened: the membership error exactly for a non-member,
    and for a member voting, not found exactly when the identifier is
    absent, voting closed exactly when the record is finalized, and the
    confirmation exactly when the record is pending. *)
Theorem create_and_vote_text_tells now pid who t d voter vf s :
  ((createProposal pid now who t d s).1 = msg_create_not_member
   ↔ who ∉ members s)
  ∧ ((createProposal pid now who t d s).1 = msg_created pid who
     ↔ who ∈ members s)
  ∧ ((voteOnProposal now pid voter vf s).1 = msg_vote_not_member
     ↔ voter ∉ members s)
  ∧ ((voteOnProposal now pid voter vf s).1 = msg_not_found pid
     ↔ voter ∈ members s ∧ proposalStorage s !! pid = None)
  ∧ ((voteOnProposal now pid voter vf s).1 = msg_voting_closed pid
     ↔ voter ∈ members s
       ∧ ∃ p, proposalStorage s !! pid = Some p ∧ status p ≠ Pending)
  ∧ ((voteOnProposal now pid voter vf s).1 = msg_vote_registered vf pid
     ↔ voter ∈ members s
       ∧ ∃ p, proposalStorage s !! pid = Some p ∧ status p = Pending).
Proof.
  split_and!.
  - unfold createProposal. case_decide; cbn [fst]; split; try done;
      intros H'; first_letter H'.
  - unfold createProposal. case_decide; cbn [fst]; split; try done;
      intros H'; first_letter H'.
  - destruct (voteOnProposal_cases now pid voter vf s)
      as [[Hm Ht]|(Hm & [[Hn Ht]|(p & Hp & [[Hst Ht]|[Hst Ht]])])];
      rewrite Ht; split; try done; intros H'; first_letter H'.
  - destruct (voteOnProposal_cases now pid voter vf s)
      as [[Hm Ht]|(Hm & [[Hn Ht]|(p & Hp & [[Hst Ht]|[Hst Ht]])])];
      rewrite Ht; split; try done;
      try (intros H'; (text_clash H' || first_letter H'));
      try (intros [? ?]; congruence).
  - destruct (voteOnProposal_cases now pid voter vf s)
      as [[Hm Ht]|(Hm & [[Hn Ht]|(p & Hp & [[Hst Ht]|[Hst Ht]])])];
      rewrite Ht; split; try done;
      try (intros H'; (text_clash H' || first_letter H'));
      try (intros [? (q & Hq & ?)]; congruence);
      try (intros _; split; [done|by exists p]).
  - destruct (voteOnProposal_cases now pid voter vf s)
      as [[Hm Ht]|(Hm & [[Hn Ht]|(p & Hp & [[Hst Ht]|[Hst Ht]])])];
      rewrite Ht; split; try done;
      try (intros H'; first_letter H');
      try (intros [? (q & Hq & ?)]; congruence);
      try (intros _; split; [done|by exists p]).
Qed.

(** ** Nothing changes without a confirmation *)

(** X17. A call that leaves the canister in another state than it found
    it has answered with its confirmation: the creation text, the vote
    text, the text of a final status, or the member text.  An error text
    therefore means that nothing was written, and the two queries never
    change anything. *)
Theorem changed_state_confirms w c s :
  (exec w c s).2 ≠ s →
  match c with
  | CreateProposal who _ _ =>
      (exec w c s).1 = Text (msg_created (uuid w) who)
  | VoteOnProposal pid _ vf =>
      (exec w c s).1 = Text (msg_vote_registered vf pid)
  | FinalizeProposal pid =>
      (exec w c s).1 = Text (msg_finalized pid Accepted)
      ∨ (exec w c s).1 = Text (msg_finalized pid Rejected)
  | AddMember _ newMember =>
      (exec w c s).1 = Text (msg_member_added newMember)
  | GetAllProposals | GetProposalById _ => False
  end.
Proof.
  destruct c as [who t d|pid voter vf|pid|adm m| |pid]; cbn [exec fst snd];
    intros Hchanged; try done.
  - revert Hchanged. unfold createProposal. by case_decide.
  - revert Hchanged. unfold voteOnProposal. case_decide; [|done].
    destruct (proposalStorage s !! pid); [|done]. by case_decide.
  - revert Hchanged. unfold finalizeProposal.
    destruct (proposalStorage s !! pid) as [p|]; [|done].
    case_decide; [|done]. case_match; [done|].
    destruct (threshold <=? votesFor p); cbn; [by left|by right].
Qed.

Lemma changed_state_confirms_witness :
  (exec (mkPlatform "" 14) (FinalizeProposal pid1) s_voted).2 ≠ s_voted
  ∧ ((exec (mkPlatform "" 14) (FinalizeProposal pid1) s_voted).1
       = Text (msg_finalized pid1 Accepted)
     ∨ (exec (mkPlatform "" 14) (FinalizeProposal pid1) s_voted).1
       = Text (msg_finalized pid1 Rejected)).
Proof.
  assert ((exec (mkPlatform "" 14) (FinalizeProposal pid1) s_voted).2
          ≠ s_voted) as H0.
  { intros Heq. apply (f_equal (λ st, status <$> proposalStorage st !! pid1))
      in Heq. vm_compute in Heq. discriminate Heq. }
  split; [exact H0|].
  exact (changed_state_confirms (mkPlatform "" 14) (FinalizeProposal pid1)
           s_voted H0).
Defined.

(** ** Adding members *)

(** X18. [addMember] of somebody who is a member already leaves the
    state as it is, whoever asks; and two [addMember] calls give the same
    state in either order. *)
Theorem addMember_idempotent_commutes admin1 admin2 m1 m2 s :
  (m1 ∈ members s → (addMember admin1 m1 s).2 = s)
  ∧ (addMember admin2 m1 (addMember admin1 m1 s).2).2 = (addMember admin1 m1 s).2
  ∧ (addMember admin2 m2 (addMember admin1 m1 s).2).2
    = (addMember admin1 m1 (addMember admin2 m2 s).2).2.
Proof.
  unfold addMember. cbn. split_and!.
  - intros Hin. destruct s as [st ms]. cbn in *. f_equal. set_solver.
  - f_equal. set_solver.
  - f_equal. set_solver.
Qed.

Lemma addMember_idempotent_commutes_witness :
  "alice" ∈ members s_created
  ∧ (addMember "anyone" "alice" s_created).2 = s_created.
Proof.
  assert ("alice" ∈ members s_created) as H0 by (vm_compute; reflexivity).
  split; [exact H0|].
  exact (proj1 (addMember_idempotent_commutes "anyone" "" "alice" "" s_created)
           H0).
Defined.

(** ** The order of the votes *)

(** X19. The tally does not depend on the order in which the votes
    arrive: the same [voteOnProposal] calls made in another order leave
    the record with the same two counters and the same status. *)
Theorem cast_order_irrelevant bs bs' s pid p :
  bs ≡ₚ bs' →
  proposalStorage s !! pid = Some p →
  ∃ p1 p2,
    proposalStorage (cast bs s).2 !! pid = Some p1
    ∧ proposalStorage (cast bs' s).2 !! pid = Some p2
    ∧ votesFor p1 = votesFor p2
    ∧ votesAgainst p1 = votesAgainst p2
    ∧ status p1 = status p2.
Proof.
  intros Hperm Hp.
  destruct (cast_sides bs s pid p Hp) as (p1 & Hp1 & Hf1 & Ha1).
  destruct (cast_sides bs' s pid p Hp) as (p2 & Hp2 & Hf2 & Ha2).
  exists p1, p2. split_and!; [done|done| | |].
  - rewrite Hf1, Hf2. f_equal.
    unfold count_accepted, ballots_for. by rewrite Hperm.
  - rewrite Ha1, Ha2. f_equal.
    unfold count_accepted, ballots_against. by rewrite Hperm.
  - pose proof (cast_status bs s pid) as H1.
    pose proof (cast_status bs' s pid) as H2.
    rewrite Hp1, Hp in H1. rewrite Hp2, Hp in H2. cbn in *. congruence.
Qed.

Lemma cast_order_irrelevant_witness :
  scenario_ballots ≡ₚ reverse scenario_ballots
  ∧ proposalStorage s_created !! pid1 = Some p_created
  ∧ ∃ p1 p2,
      proposalStorage (cast scenario_ballots s_created).2 !! pid1 = Some p1
      ∧ proposalStorage (cast (reverse scenario_ballots) s_created).2 !! pid1
        = Some p2
      ∧ votesFor p1 = votesFor p2
      ∧ votesAgainst p1 = votesAgainst p2
      ∧ status p1 = status p2.
Proof.
  assert (scenario_ballots ≡ₚ reverse scenario_ballots) as H0
    by (symmetry; apply reverse_Permutation).
  assert (proposalStorage s_created !! pid1 = Some p_created) as H1
    by (vm_compute; reflexivity).
  split_and!; [exact H0|exact H1|].
  exact (cast_order_irrelevant _ _ s_created pid1 p_created H0 H1).
Defined.

End DAO.
